(** * The Product API lambda: dispatcher, authorization guard and handlers

    A shallow embedding of the TypeScript lambda of [cdk-products/lambda-fns]
    ([main.ts], [createProduct.ts], [getProductById.ts], [listProducts.ts],
    [updateProduct.ts], [deleteProduct.ts], [productsByCategory.ts]).

    JavaScript objects are association lists in property-enumeration order,
    DynamoDB items are finite maps, and the handlers run in a state-and-error
    monad over a world that holds the process environment, the product table,
    the source of randomness of [uuid] and the console. *)

From Stdlib Require Import ZArith NArith Ascii String List.
From stdpp Require Import base option list strings gmap fin_maps.

Local Open Scope string_scope.
Local Open Scope list_scope.

(** ** JavaScript values *)

(** The scalars that AppSync delivers as attribute values of a product
    (JSON [null], booleans, numbers and strings). The handlers never compute
    with a number, they only pass it on, so a number is carried as an integer
    payload. *)
Inductive value : Type :=
  | VNull
  | VBool (b : bool)
  | VNum (n : Z)
  | VStr (s : string).

Global Instance value_eq_dec : EqDecision value.
Proof. solve_decision. Defined.

(** A JavaScript object: its own properties in the order [Object.keys]
    enumerates them. A property that is not listed reads as [undefined]. *)
Definition obj : Type := list (string * value).

(** [Object.keys(o)]. *)
Definition keys (o : obj) : list string := map fst o.

(** [o[k]], with [None] for [undefined]. *)
Fixpoint prop_get (o : obj) (k : string) : option value :=
  match o with
  | [] => None
  | (k', v) :: o' => if String.eqb k' k then Some v else prop_get o' k
  end.

(** [o[k] = v]: an existing property keeps its place, a new one is added
    last. *)
Fixpoint prop_set (o : obj) (k : string) (v : value) : obj :=
  match o with
  | [] => [(k, v)]
  | (k', v') :: o' =>
      if String.eqb k' k then (k', v) :: o' else (k', v') :: prop_set o' k v
  end.

(** JavaScript truthiness of a property read ([!x] is its negation). *)
Definition truthy (x : option value) : bool :=
  match x with
  | None => false
  | Some VNull => false
  | Some (VBool b) => b
  | Some (VNum n) => negb (Z.eqb n 0)
  | Some (VStr s) => negb (String.eqb s "")
  end.

(** [xs.includes(x)] on an array of strings. *)
Definition includes (xs : list string) (x : string) : bool :=
  existsb (String.eqb x) xs.

(** A DynamoDB item: an unordered map from attribute names to values. *)
Abbreviation item := (gmap string value).

(** What the DocumentClient marshals a JavaScript object into. *)
Definition marshal (o : obj) : item := list_to_map o.

(** What a handler (and the lambda) returns. *)
Inductive jsval : Type :=
  | Undefined
  | Null
  | Str (s : string)
  | Obj (o : obj)
  | Item (i : item)
  | Items (l : list item).

(** ** The DynamoDB service *)

(** Modelled from the spec: the DynamoDB service behind the DocumentClient
    is not part of the repository. The product table is provisioned by the
    CDK stack with the string partition key [id] and the global secondary
    index [productsByCategory] on the string attribute [category]. What a
    request does to the table is what the specification says of the store:
    put replaces the item under its key, get and delete address one item by
    key and do not fail when there is none, scan returns every item, query
    returns the items with the given value of the index key, update sets
    the given attributes of the item under the key. What a request has to
    look like is the request syntax of the service, as far as the handlers
    exercise it: a request names the table, a key is a string that is not
    empty, an update sets the index key to nothing but a string that is not
    empty, and an expression is a sequence of tokens in which [#n] and [:v]
    are placeholders that the request's [ExpressionAttributeNames] and
    [ExpressionAttributeValues] define. The attributes of an item that is
    put are not examined beyond its key, and no limit of size is modelled. *)

Inductive token : Type :=
  | TWord (w : string)
  | TName (n : string)
  | TValue (n : string)
  | TEq
  | TComma.

Inductive sigil : Type := Bare | Hash | Colon.

(** Characters of a placeholder or keyword: letters, digits, underscore. *)
Definition is_ident_char (c : ascii) : bool :=
  let n := nat_of_ascii c in
  (Nat.leb 48 n && Nat.leb n 57) || (Nat.leb 65 n && Nat.leb n 90)
  || (Nat.leb 97 n && Nat.leb n 122) || Nat.eqb n 95.

(** The token that a finished word stands for; a sigil with nothing after it
    is malformed. *)
Definition close (pending : option (sigil * string)) : option (list token) :=
  match pending with
  | None => Some []
  | Some (_, "") => None
  | Some (Bare, w) => Some [TWord w]
  | Some (Hash, w) => Some [TName w]
  | Some (Colon, w) => Some [TValue w]
  end.

Definition extend (pending : option (sigil * string)) (c : ascii)
  : option (sigil * string) :=
  match pending with
  | None => Some (Bare, String c "")
  | Some (sg, w) => Some (sg, w +:+ String c "")
  end.

Fixpoint lex (pending : option (sigil * string)) (s : string)
  : option (list token) :=
  match s with
  | "" => close pending
  | String c s' =>
      if is_ident_char c then lex (extend pending c) s'
      else
        match close pending with
        | None => None
        | Some done =>
            let rest :=
              if Ascii.eqb c " " then lex None s'
              else if Ascii.eqb c "," then cons TComma <$> lex None s'
              else if Ascii.eqb c "=" then cons TEq <$> lex None s'
              else if Ascii.eqb c "#" then lex (Some (Hash, "")) s'
              else if Ascii.eqb c ":" then lex (Some (Colon, "")) s'
              else None in
            app done <$> rest
        end
  end.

(** [#n = :v (, #n = :v)*]: the actions of a SET clause. *)
Fixpoint parse_actions (ts : list token) : option (list (string * string)) :=
  match ts with
  | TName n :: TEq :: TValue v :: rest =>
      match rest with
      | [] => Some [(n, v)]
      | TComma :: rest' => cons (n, v) <$> parse_actions rest'
      | _ => None
      end
  | _ => None
  end.

(** An update expression, as far as the lambda writes them: the keyword
    [set] and at least one action. The empty expression is not one. *)
Definition parse_update (e : string) : option (list (string * string)) :=
  match lex None e with
  | Some (TWord w :: ts) =>
      if String.eqb w "set" || String.eqb w "SET" then parse_actions ts
      else None
  | _ => None
  end.

(** A key condition [#n = :v]. *)
Definition parse_condition (e : string) : option (string * string) :=
  match lex None e with
  | Some [TName n; TEq; TValue v] => Some (n, v)
  | _ => None
  end.

(** The attribute and the value that the placeholders of an action denote. *)
Definition resolve (names : gmap string string) (values : gmap string value)
    (action : string * string) : option (string * value) :=
  a ← names !! ("#" +:+ action.1);
  x ← values !! (":" +:+ action.2);
  Some (a, x).

(** [SET] actions applied to an item, left to right. *)
Definition apply_sets (sets : list (string * value)) (it : item) : item :=
  fold_left (λ acc s, <[s.1 := s.2]> acc) sets it.

(** The key that a value denotes: a string that is not empty. *)
Definition key_of (v : option value) : option string :=
  match v with
  | Some (VStr k) => if String.eqb k "" then None else Some k
  | _ => None
  end.

(** Whether a SET action may be applied: the index key [category] takes
    nothing but a string that is not empty. *)
Definition index_value_ok (action : string * value) : bool :=
  if String.eqb action.1 "category" then
    match action.2 with
    | VStr x => negb (String.eqb x "")
    | _ => false
    end
  else true.

(** The key attribute of an index of the table. *)
Definition index_key (index : string) : option string :=
  if String.eqb index "productsByCategory" then Some "category" else None.

(** The parameter objects of the six DocumentClient calls. [TableName] is
    [process.env.PRODUCT_TABLE], which is [undefined] when the variable is
    not set. *)
Record PutParams : Type := {
  put_TableName : option string;
  put_Item : obj }.

Record GetParams : Type := {
  get_TableName : option string;
  get_Key_id : value }.

Record ScanParams : Type := {
  scan_TableName : option string }.

Record QueryParams : Type := {
  query_TableName : option string;
  query_IndexName : string;
  query_KeyConditionExpression : string;
  query_ExpressionAttributeNames : gmap string string;
  query_ExpressionAttributeValues : gmap string value }.

(** [type Params] of [updateProduct.ts]; [Key_id] is the [id] of [Key]. *)
Record Params : Type := {
  TableName : option string;
  Key_id : option value;
  ExpressionAttributeValues : gmap string value;
  ExpressionAttributeNames : gmap string string;
  UpdateExpression : string;
  ReturnValues : string }.

Record DeleteParams : Type := {
  delete_TableName : option string;
  delete_Key_id : value }.

Inductive request : Type :=
  | ReqPut (p : PutParams)
  | ReqGet (p : GetParams)
  | ReqScan (p : ScanParams)
  | ReqQuery (p : QueryParams)
  | ReqUpdate (p : Params)
  | ReqDelete (p : DeleteParams).

Definition request_table (r : request) : option string :=
  match r with
  | ReqPut p => put_TableName p
  | ReqGet p => get_TableName p
  | ReqScan p => scan_TableName p
  | ReqQuery p => query_TableName p
  | ReqUpdate p => TableName p
  | ReqDelete p => delete_TableName p
  end.

(** What a thrown value is: a JavaScript [Error] with its message, or the
    error with which the AWS SDK rejects the promise of a request. *)
Inductive exn : Type :=
  | Error (message : string)
  | AWSError (code : string).

Abbreviation table := (gmap string item).

(** What the service answers to a request that reached it. *)
Inductive reply : Type :=
  | Done
  | Found (i : option item)
  | Many (l : list item).

(** Modelled from the spec: the service on a request for the product table.
    It gives the reply and the table afterwards, or the code of the error.
    - a key that is not a string, or is the empty string, is refused;
    - put replaces the item under the [id] of the new one, whatever was there;
    - get and delete address one item by key, and neither fails when there
      is none;
    - scan returns every item;
    - query returns the items whose index key equals the value given;
    - update applies the SET actions to the item under the key (to a new
      item with that key when there is none), and is refused when an action
      would give the index key [category] a value that is not a string or
      is the empty string. *)
Definition serve (r : request) (t : table) : exn + reply * table :=
  let invalid := inl (AWSError "ValidationException") in
  match r with
  | ReqPut p =>
      match key_of (marshal (put_Item p) !! "id") with
      | Some k => inr (Done, <[k := marshal (put_Item p)]> t)
      | None => invalid
      end
  | ReqGet p =>
      match key_of (Some (get_Key_id p)) with
      | Some k => inr (Found (t !! k), t)
      | None => invalid
      end
  | ReqScan p => inr (Many (map snd (map_to_list t)), t)
  | ReqQuery p =>
      match index_key (query_IndexName p),
            parse_condition (query_KeyConditionExpression p)
              ≫= resolve (query_ExpressionAttributeNames p)
                         (query_ExpressionAttributeValues p) with
      | Some k, Some (a, x) =>
          if String.eqb a k
          then inr (Many (filter (λ it, it !! k = Some x)
                                 (map snd (map_to_list t))), t)
          else invalid
      | _, _ => invalid
      end
  | ReqUpdate p =>
      match key_of (Key_id p),
            parse_update (UpdateExpression p)
              ≫= mapM (resolve (ExpressionAttributeNames p)
                               (ExpressionAttributeValues p)) with
      | Some k, Some sets =>
          if forallb index_value_ok sets then
            inr (Done,
                 <[k := apply_sets sets
                          (default {["id" := VStr k]} (t !! k))]> t)
          else invalid
      | _, _ => invalid
      end
  | ReqDelete p =>
      match key_of (Some (delete_Key_id p)) with
      | Some k => inr (Done, delete k t)
      | None => invalid
      end
  end.

(** ** The world of one invocation *)

Record world : Type := World {
  env_PRODUCT_TABLE : option string;  (* process.env.PRODUCT_TABLE *)
  table_name : string;                (* the name of the provisioned table *)
  items : table;                      (* its contents *)
  outages : list bool;                (* whether the next requests fail to
                                         get an answer *)
  requests : list request;            (* the requests sent so far *)
  entropy : nat → N;                  (* the random bytes still to come *)
  console : list exn }.               (* what console.log has printed *)

Inductive outcome (A : Type) : Type :=
  | Ret (a : A)
  | Throw (e : exn).
Arguments Ret {A} a.
Arguments Throw {A} e.

(** A computation: it returns or throws, and leaves a world behind. *)
Definition M (A : Type) : Type := world → outcome A * world.

Global Instance M_ret : MRet M := λ A a w, (Ret a, w).

Global Instance M_bind : MBind M := λ A B f m w,
  match m w with
  | (Ret a, w') => f a w'
  | (Throw e, w') => (Throw e, w')
  end.

Definition throw {A : Type} (e : exn) : M A := λ w, (Throw e, w).

(** [try { body } catch (err) { handler }]. *)
Definition try_catch {A : Type} (body : M A) (handler : exn → M A) : M A :=
  λ w, match body w with
       | (Ret a, w') => (Ret a, w')
       | (Throw e, w') => handler e w'
       end.

Definition process_env_PRODUCT_TABLE : M (option string) :=
  λ w, (Ret (env_PRODUCT_TABLE w), w).

(** [console.log('DynamoDB error: ', err)]. *)
Definition console_log (err : exn) : M unit := λ w,
  (Ret tt,
   World (env_PRODUCT_TABLE w) (table_name w) (items w) (outages w)
         (requests w) (entropy w) (console w ++ [err])).

(** The world once request [r] has been sent and the table has become [t]. *)
Definition sent (r : request) (t : table) (w : world) : world :=
  World (env_PRODUCT_TABLE w) (table_name w) t (tail (outages w))
        (requests w ++ [r]) (entropy w) (console w).

(** [docClient.<operation>(params).promise()], awaited: the request is sent;
    the promise is rejected when the service cannot be reached, when the
    request does not name the table, or when the service refuses it. *)
Definition send (r : request) : M reply := λ w,
  if default false (head (outages w))
  then (Throw (AWSError "ServiceUnavailable"), sent r (items w) w)
  else
    match request_table r with
    | None => (Throw (AWSError "MissingRequiredParameter"), sent r (items w) w)
    | Some n =>
        if String.eqb n (table_name w) then
          match serve r (items w) with
          | inl e => (Throw e, sent r (items w) w)
          | inr (a, t') => (Ret a, sent r t' w)
          end
        else (Throw (AWSError "ResourceNotFoundException"),
              sent r (items w) w)
    end.

Definition docClient_put (p : PutParams) : M unit :=
  _ ← send (ReqPut p); mret tt.

(** The [Item] of the output, [None] when the output has none. *)
Definition docClient_get (p : GetParams) : M (option item) :=
  r ← send (ReqGet p); mret (match r with Found i => i | _ => None end).

(** The [Items] of the output. *)
Definition docClient_scan (p : ScanParams) : M (list item) :=
  r ← send (ReqScan p); mret (match r with Many l => l | _ => [] end).

Definition docClient_query (p : QueryParams) : M (list item) :=
  r ← send (ReqQuery p); mret (match r with Many l => l | _ => [] end).

Definition docClient_update (p : Params) : M unit :=
  _ ← send (ReqUpdate p); mret tt.

Definition docClient_delete (p : DeleteParams) : M unit :=
  _ ← send (ReqDelete p); mret tt.

(** ** [uuid.v4] *)

Definition hex_digit (n : N) : ascii :=
  default "0"%char (list_ascii_of_string "0123456789abcdef" !! N.to_nat n).

Definition byte_to_hex (b : N) : string :=
  String (hex_digit (b / 16)) (String (hex_digit (b mod 16)) "").

(** Modelled from the spec: the [uuid] package is not part of the
    repository; the identifier is a UUID-v4, that is sixteen random bytes
    with the version and variant bits of RFC 4122 set, in the 8-4-4-4-12
    hexadecimal layout. *)
Definition v4 (rnds : nat → N) : string :=
  let b i := (rnds i mod 256)%N in
  let b6 := N.lor (N.land (b 6%nat) 15) 64 in
  let b8 := N.lor (N.land (b 8%nat) 63) 128 in
  byte_to_hex (b 0%nat) +:+ byte_to_hex (b 1%nat) +:+ byte_to_hex (b 2%nat)
  +:+ byte_to_hex (b 3%nat) +:+ "-"
  +:+ byte_to_hex (b 4%nat) +:+ byte_to_hex (b 5%nat) +:+ "-"
  +:+ byte_to_hex b6 +:+ byte_to_hex (b 7%nat) +:+ "-"
  +:+ byte_to_hex b8 +:+ byte_to_hex (b 9%nat) +:+ "-"
  +:+ byte_to_hex (b 10%nat) +:+ byte_to_hex (b 11%nat)
  +:+ byte_to_hex (b 12%nat) +:+ byte_to_hex (b 13%nat)
  +:+ byte_to_hex (b 14%nat) +:+ byte_to_hex (b 15%nat).

(** [uuid()]: a v4 identifier from the next sixteen random bytes. *)
Definition uuid : M string := λ w,
  (Ret (v4 (entropy w)),
   World (env_PRODUCT_TABLE w) (table_name w) (items w) (outages w)
         (requests w) (λ i, entropy w (16 + i)%nat) (console w)).

(** ** The handlers *)

(** [getProductById.ts]. The [catch] block has no [return]: the function
    then returns [undefined]. *)
Definition getProductById (productId : string) : M jsval :=
  table ← process_env_PRODUCT_TABLE;
  let params := {| get_TableName := table; get_Key_id := VStr productId |} in
  try_catch
    (Item_ ← docClient_get params;
     mret (match Item_ with Some it => Item it | None => Undefined end))
    (λ err, _ ← console_log err; mret Undefined).

(** [createProduct.ts]. *)
Definition createProduct (product : obj) : M jsval :=
  product ← (if negb (truthy (prop_get product "id"))
             then u ← uuid; mret (prop_set product "id" (VStr u))
             else mret product);
  table ← process_env_PRODUCT_TABLE;
  let params := {| put_TableName := table; put_Item := product |} in
  try_catch
    (_ ← docClient_put params; mret (Obj product))
    (λ err, _ ← console_log err; mret Null).

(** [listProducts.ts]. *)
Definition listProducts : M jsval :=
  table ← process_env_PRODUCT_TABLE;
  let params := {| scan_TableName := table |} in
  try_catch
    (data ← docClient_scan params; mret (Items data))
    (λ err, _ ← console_log err; mret Null).

(** [productsByCategory.ts]. *)
Definition productsByCategory (category : string) : M jsval :=
  table ← process_env_PRODUCT_TABLE;
  let params :=
    {| query_TableName := table;
       query_IndexName := "productsByCategory";
       query_KeyConditionExpression := "#fieldName = :category";
       query_ExpressionAttributeNames := {["#fieldName" := "category"]};
       query_ExpressionAttributeValues := {[":category" := VStr category]} |} in
  try_catch
    (data ← docClient_query params; mret (Items data))
    (λ err, _ ← console_log err; mret Null).

(** [deleteProduct.ts]. *)
Definition deleteProduct (productId : string) : M jsval :=
  table ← process_env_PRODUCT_TABLE;
  let params :=
    {| delete_TableName := table; delete_Key_id := VStr productId |} in
  try_catch
    (_ ← docClient_delete params; mret (Str productId))
    (λ err, _ ← console_log err; mret Null).

(** The body of the [for] loop of [updateProduct.ts] on one attribute; the
    state is [params] and [prefix]. Assigning [product[attribute]] gives the
    property that value, [undefined] included. *)
Definition update_step (product : obj) (st : Params * string)
    (attribute : string) : Params * string :=
  let '(params, prefix) := st in
  if negb (String.eqb attribute "id") then
    ({| TableName := TableName params;
        Key_id := Key_id params;
        ExpressionAttributeValues :=
          partial_alter (λ _, prop_get product attribute) (":" +:+ attribute)
                        (ExpressionAttributeValues params);
        ExpressionAttributeNames :=
          <["#" +:+ attribute := attribute]> (ExpressionAttributeNames params);
        UpdateExpression :=
          UpdateExpression params
          +:+ (((prefix +:+ "#") +:+ attribute) +:+ " = :") +:+ attribute;
        ReturnValues := ReturnValues params |},
     ", ")
  else (params, prefix).

(** The [for] loop of [updateProduct.ts] over [attributes]. *)
Definition update_loop (product : obj) (attributes : list string)
    (params : Params) (prefix : string) : Params :=
  (fold_left (update_step product) attributes (params, prefix)).1.

(** The request that [updateProduct] builds for a product. *)
Definition update_params (table : option string) (product : obj) : Params :=
  let params :=
    {| TableName := table;
       Key_id := prop_get product "id";
       UpdateExpression := "";
       ExpressionAttributeNames := ∅;
       ExpressionAttributeValues := ∅;
       ReturnValues := "UPDATED_NEW" |} in
  let prefix := "set " in
  let attributes := keys product in
  update_loop product attributes params prefix.

(** [updateProduct.ts]. *)
Definition updateProduct (product : obj) : M jsval :=
  table ← process_env_PRODUCT_TABLE;
  let params := update_params table product in
  try_catch
    (_ ← docClient_update params; mret (Obj product))
    (λ err, _ ← console_log err; mret Null).

(** ** The dispatcher and the guard ([main.ts]) *)

Record Identity : Type := {
  username : string;
  claims : gmap string (list string) }.

Record Arguments : Type := {
  productId : string;
  category : string;
  product : obj }.

(** [type AppSyncEvent]; [identity] is null on a request that did not come
    through the user pool. *)
Record AppSyncEvent : Type := {
  info_fieldName : string;
  arguments : Arguments;
  identity : option Identity }.

Definition checkForGroup (event : AppSyncEvent) (groupName : string) : bool :=
  match identity event with
  | Some idn =>
      match claims idn !! "cognito:groups" with
      | Some groups => if includes groups groupName then true else false
      | None => false
      end
  | None => false
  end.

(** [exports.handler]. *)
Definition handler (event : AppSyncEvent) : M jsval :=
  let fieldName := info_fieldName event in
  if String.eqb fieldName "getProductById" then
    getProductById (productId (arguments event))
  else if String.eqb fieldName "createProduct" then
    if negb (checkForGroup event "Admin") then throw (Error "unauthorized")
    else createProduct (product (arguments event))
  else if String.eqb fieldName "listProducts" then
    listProducts
  else if String.eqb fieldName "deleteProduct" then
    if negb (checkForGroup event "Admin") then throw (Error "unauthorized")
    else deleteProduct (productId (arguments event))
  else if String.eqb fieldName "updateProduct" then
    if negb (checkForGroup event "Admin") then throw (Error "unauthorized")
    else updateProduct (product (arguments event))
  else if String.eqb fieldName "productsByCategory" then
    productsByCategory (category (arguments event))
  else mret Null.

(** ** Notions used in the statements *)

(** The service can be reached by the next request and the lambda is
    configured with the name of the table. *)
Definition online (w : world) : bool :=
  negb (default false (head (outages w)))
  && bool_decide (env_PRODUCT_TABLE w = Some (table_name w)).

(** Whether the promise of a request resolves (rather than rejects). *)
Definition resolves (r : request) (w : world) : bool :=
  match (send r w).1 with
  | Ret _ => true
  | Throw _ => false
  end.

(** The world after the [catch] block has logged [e]. *)
Definition logged (e : exn) (w : world) : world := (console_log e w).2.

(** *** The update expression *)

Fixpoint all_ident (s : string) : bool :=
  match s with
  | "" => true
  | String c s' => is_ident_char c && all_ident s'
  end.

(** An attribute name that can stand behind [#] and [:] as a placeholder. *)
Definition ident_ok (s : string) : bool :=
  negb (String.eqb s "") && all_ident s.

(** The attributes that the loop of [updateProduct] writes an action for. *)
Definition patch_attributes (product : obj) : list string :=
  filter (λ a, a ≠ "id") (keys product).

(** The text of the actions for a list of attributes. *)
Fixpoint actions_text (prefix : string) (l : list string) : string :=
  match l with
  | [] => ""
  | a :: l' =>
      ((((prefix +:+ "#") +:+ a) +:+ " = :") +:+ a) +:+ actions_text ", " l'
  end.

(** The tokens of the actions after the first. *)
Definition more_actions (l : list string) : list token :=
  flat_map (λ a, [TComma; TName a; TEq; TValue a]) l.

(** P5 of the specification: the product, the input and the world. *)
Definition p5_stored : obj :=
  [("id", VStr "1"); ("name", VStr "A"); ("price", VNum 10);
   ("category", VStr "x")].

Definition p5_input : obj := [("id", VStr "1"); ("price", VNum 20)].

Definition p5_world : world :=
  World (Some "Products") "Products" {["1" := marshal p5_stored]} [] []
        (λ _, 0%N) [].

(** *** The stack and the table *)

(** The resolvers that [cdk-products-stack.ts] attaches to the lambda data
    source, as [typeName] and [fieldName], in the order of the
    [createResolver] calls. *)
Definition resolvers : list (string * string) :=
  [("Query", "getProductById"); ("Query", "listProducts");
   ("Query", "productsByCategory"); ("Mutation", "createProduct");
   ("Mutation", "deleteProduct"); ("Mutation", "updateProduct")].

(** Every item of the table carries, as its [id], the key it is stored
    under. *)
Definition keyed (t : table) : Prop :=
  ∀ k it, t !! k = Some it → it !! "id" = Some (VStr k).

(** The result that stands for "no data": [null] or [undefined]. *)
Definition absent (v : jsval) : bool :=
  match v with
  | Null | Undefined => true
  | _ => false
  end.

(** The world after [uuid()] has drawn its bytes. *)
Definition drawn (w : world) : world := (uuid w).2.

(** * Properties *)

(** ** The guard *)

Lemma includes_elem_of (xs : list string) (x : string) :
  includes xs x = true ↔ x ∈ xs.
Proof.
  unfold includes. rewrite existsb_exists. split.
  - intros (y & Hy & Heq). apply String.eqb_eq in Heq. subst y.
    by apply list_elem_of_In.
  - intros Hx. exists x. split; [by apply list_elem_of_In|].
    apply String.eqb_refl.
Qed.

(** The guard in terms of the caller's data: it holds exactly when there is
    an identity whose claims have a ['cognito:groups'] entry that lists the
    group. *)
Lemma checkForGroup_spec (event : AppSyncEvent) (groupName : string) :
  checkForGroup event groupName = true ↔
  ∃ idn groups, identity event = Some idn
                ∧ claims idn !! "cognito:groups" = Some groups
                ∧ groupName ∈ groups.
Proof.
  unfold checkForGroup. split.
  - destruct (identity event) as [idn|]; [|discriminate].
    destruct (claims idn !! "cognito:groups") as [groups|] eqn:Hg;
      [|discriminate].
    destruct (includes groups groupName) eqn:Hi; [|discriminate].
    intros _. exists idn, groups. by rewrite <- includes_elem_of.
  - intros (idn & groups & -> & -> & Hin).
    apply includes_elem_of in Hin. by rewrite Hin.
Qed.

Lemma checkForGroup_false (event : AppSyncEvent) (groupName : string) :
  (∀ idn groups, identity event = Some idn →
                 claims idn !! "cognito:groups" = Some groups →
                 groupName ∉ groups) →
  checkForGroup event groupName = false.
Proof.
  intros Hno. apply not_true_is_false. rewrite checkForGroup_spec.
  intros (idn & groups & Hi & Hc & Hin). by eapply Hno.
Qed.

(** C2: [checkForGroup] is a function into [bool] of the event and the group
    name alone; it is [false] without an identity, [false] when the claims
    have no ['cognito:groups'] entry, and [true] exactly when the group name
    is an element of that entry, compared as strings (so ["admin"] does not
    stand for ["Admin"]). *)
Theorem checkForGroup_correct :
  (∀ event groupName,
     identity event = None → checkForGroup event groupName = false)
  ∧ (∀ event idn groupName,
       identity event = Some idn →
       claims idn !! "cognito:groups" = None →
       checkForGroup event groupName = false)
  ∧ (∀ event idn groups groupName,
       identity event = Some idn →
       claims idn !! "cognito:groups" = Some groups →
       (checkForGroup event groupName = true ↔ groupName ∈ groups))
  ∧ (∀ args user,
       checkForGroup
         {| info_fieldName := "createProduct"; arguments := args;
            identity := Some {| username := user;
                                claims := {["cognito:groups" := ["admin"]]} |} |}
         "Admin" = false).
Proof.
  split; [|split; [|split]].
  - intros event groupName Hi. unfold checkForGroup. by rewrite Hi.
  - intros event idn groupName Hi Hc. unfold checkForGroup. by rewrite Hi, Hc.
  - intros event idn groups groupName Hi Hc. rewrite checkForGroup_spec. split.
    + intros (idn' & groups' & Hi' & Hc' & Hin). congruence.
    + intros Hin. by exists idn, groups.
  - intros args user. reflexivity.
Qed.

Lemma checkForGroup_correct_witness :
  checkForGroup
    {| info_fieldName := "deleteProduct";
       arguments := {| productId := "1"; category := ""; product := [] |};
       identity := Some {| username := "ann";
                           claims := {["cognito:groups" := ["Staff"; "Admin"]]} |} |}
    "Admin" = true ↔ "Admin" ∈ ["Staff"; "Admin"].
Proof.
  apply (proj1 (proj2 (proj2 checkForGroup_correct))
           _ {| username := "ann";
                claims := {["cognito:groups" := ["Staff"; "Admin"]]} |});
    reflexivity.
Defined.

(** ** The dispatcher *)

Lemma handler_mutation_unauthorized (event : AppSyncEvent) (w : world) :
  info_fieldName event = "createProduct"
  ∨ info_fieldName event = "updateProduct"
  ∨ info_fieldName event = "deleteProduct" →
  checkForGroup event "Admin" = false →
  handler event w = (Throw (Error "unauthorized"), w).
Proof.
  intros [Hf | [Hf | Hf]] Hg; unfold handler; rewrite Hf, Hg; reflexivity.
Qed.

(** Every handler sends one request to the store, so a run that leaves
    [requests] as it was has run no handler. *)
Lemma send_requests (r : request) (w : world) :
  requests (send r w).2 = requests w ++ [r].
Proof.
  unfold send. destruct (default false (head (outages w))); [done|].
  destruct (request_table r) as [n|]; [|done].
  destruct (String.eqb n (table_name w)); [|done].
  by destruct (serve r (items w)) as [e|[a t']].
Qed.

(** C1: a mutation requested by a caller without the ['Admin'] group (no
    identity, no ['cognito:groups'] claim, or a claim that does not list it)
    throws [Error('unauthorized')] and leaves the world as it was: no request
    was sent to the store, nothing was drawn or logged, so no handler ran.
    The three reads are their handlers applied to the arguments, whatever the
    identity is, and each sends its request to the store. *)
Theorem handler_authorization_gate :
  (∀ event w,
     info_fieldName event = "createProduct"
     ∨ info_fieldName event = "updateProduct"
     ∨ info_fieldName event = "deleteProduct" →
     (∀ idn groups, identity event = Some idn →
                    claims idn !! "cognito:groups" = Some groups →
                    "Admin" ∉ groups) →
     handler event w = (Throw (Error "unauthorized"), w))
  ∧ (∀ args idn w,
       handler {| info_fieldName := "getProductById"; arguments := args;
                  identity := idn |} w
       = getProductById (productId args) w
       ∧ handler {| info_fieldName := "listProducts"; arguments := args;
                    identity := idn |} w
         = listProducts w
       ∧ handler {| info_fieldName := "productsByCategory"; arguments := args;
                    identity := idn |} w
         = productsByCategory (category args) w)
  ∧ (∀ args w,
       (∃ v w' r, getProductById (productId args) w = (Ret v, w')
                  ∧ requests w' = requests w ++ [r])
       ∧ (∃ v w' r, listProducts w = (Ret v, w')
                    ∧ requests w' = requests w ++ [r])
       ∧ (∃ v w' r, productsByCategory (category args) w = (Ret v, w')
                    ∧ requests w' = requests w ++ [r])).
Proof.
  split; [|split].
  - intros event w Hf Hno.
    by apply handler_mutation_unauthorized, checkForGroup_false.
  - intros args idn w. repeat split.
  - intros args w.
    unfold getProductById, listProducts, productsByCategory,
      docClient_get, docClient_scan, docClient_query, try_catch, mbind, M_bind,
      mret, M_ret, process_env_PRODUCT_TABLE, console_log.
    repeat split.
    all: match goal with
         | |- context [send ?r ?w0] =>
             pose proof (send_requests r w0) as Hr;
             destruct (send r w0) as [[a|e] w1]; simpl in *;
             do 3 eexists; (split; [reflexivity|]); simpl; exact Hr
         end.
Qed.

Lemma handler_authorization_gate_witness :
  handler {| info_fieldName := "deleteProduct";
             arguments := {| productId := "1"; category := "";
                             product := [] |};
             identity := Some {| username := "bob";
                                 claims := {["cognito:groups" := ["Staff"]]} |} |}
          p5_world
  = (Throw (Error "unauthorized"), p5_world).
Proof.
  apply (proj1 handler_authorization_gate).
  - right; right; reflexivity.
  - simpl. intros idn groups Hi Hc. injection Hi as <-.
    vm_compute in Hc. injection Hc as <-.
    apply (bool_decide_unpack _). vm_compute. exact I.
Defined.

(** C8: a field name that is none of the six labels falls to [default]: the
    lambda returns [null], throws nothing and leaves the world as it was, so
    no handler ran and no request was sent. *)
Theorem handler_unknown_operation (event : AppSyncEvent) (w : world) :
  info_fieldName event ≠ "getProductById" →
  info_fieldName event ≠ "createProduct" →
  info_fieldName event ≠ "listProducts" →
  info_fieldName event ≠ "deleteProduct" →
  info_fieldName event ≠ "updateProduct" →
  info_fieldName event ≠ "productsByCategory" →
  handler event w = (Ret Null, w).
Proof.
  intros H1 H2 H3 H4 H5 H6. unfold handler.
  apply String.eqb_neq in H1, H2, H3, H4, H5, H6.
  by rewrite H1, H2, H3, H4, H5, H6.
Qed.

Lemma handler_unknown_operation_witness :
  handler {| info_fieldName := "purgeProducts";
             arguments := {| productId := "1"; category := "";
                             product := [] |};
             identity := None |} p5_world
  = (Ret Null, p5_world).
Proof.
  apply handler_unknown_operation; simpl; discriminate.
Defined.

(** C10: the guard reads the claims at ['cognito:groups'] and nowhere else.
    Identities that agree on that entry get the same answer, and a mutation
    by an identity without ['Admin'] under ['cognito:groups'] is refused
    whatever any other claim key is made to list, ['Admin'] included. *)
Theorem checkForGroup_only_cognito_groups :
  (∀ f args user user' cl cl' groupName,
     cl !! "cognito:groups" = cl' !! "cognito:groups" →
     checkForGroup {| info_fieldName := f; arguments := args;
                      identity := Some {| username := user; claims := cl |} |}
                   groupName
     = checkForGroup {| info_fieldName := f; arguments := args;
                        identity := Some {| username := user';
                                            claims := cl' |} |}
                     groupName)
  ∧ (∀ f args user cl key groups w,
       f = "createProduct" ∨ f = "updateProduct" ∨ f = "deleteProduct" →
       key ≠ "cognito:groups" →
       (∀ gs, cl !! "cognito:groups" = Some gs → "Admin" ∉ gs) →
       handler {| info_fieldName := f; arguments := args;
                  identity := Some {| username := user;
                                      claims := <[key := groups]> cl |} |} w
       = (Throw (Error "unauthorized"), w)).
Proof.
  split.
  - intros f args user user' cl cl' groupName Heq.
    unfold checkForGroup; simpl. by rewrite Heq.
  - intros f args user cl key groups w Hf Hkey Hno.
    apply handler_mutation_unauthorized; [exact Hf|].
    apply checkForGroup_false. simpl. intros idn gs [= <-]. simpl.
    rewrite lookup_insert_ne by done. apply Hno.
Qed.

Lemma checkForGroup_only_cognito_groups_witness :
  handler {| info_fieldName := "createProduct";
             arguments := {| productId := ""; category := "";
                             product := [("name", VStr "Shoe")] |};
             identity :=
               Some {| username := "eve";
                       claims := <["custom:groups" := ["Admin"]]>
                                   {["cognito:groups" := ["Staff"]]} |} |}
          p5_world
  = (Throw (Error "unauthorized"), p5_world).
Proof.
  apply (proj2 checkForGroup_only_cognito_groups).
  - left; reflexivity.
  - discriminate.
  - intros gs Hc. vm_compute in Hc. injection Hc as <-.
    apply (bool_decide_unpack _). vm_compute. exact I.
Defined.

(** ** Store failures *)

(** Unfolds a handler down to its one [send]. *)
Ltac unfold_handler :=
  unfold getProductById, createProduct, listProducts, productsByCategory,
    deleteProduct, updateProduct, docClient_get, docClient_put,
    docClient_scan, docClient_query, docClient_delete, docClient_update,
    try_catch, mbind, M_bind, mret, M_ret, process_env_PRODUCT_TABLE.

(** Settles a goal about a handler by cases on the outcome of its request. *)
Ltac by_send_cases :=
  match goal with
  | |- context [send ?r ?w0] =>
      let Hr := fresh "Hr" in
      let Hs := fresh "Hs" in
      pose proof (send_requests r w0) as Hr;
      unfold resolves;
      destruct (send r w0) as [[a|e] w1] eqn:Hs; simpl in *;
      do 3 eexists; (split; [reflexivity|]); (split; [exact Hr|]);
      try rewrite Hs; simpl; intros; (discriminate || reflexivity)
  end.

Lemma send_outcome_ext (r : request) (w1 w2 : world) :
  outages w1 = outages w2 → table_name w1 = table_name w2 →
  items w1 = items w2 →
  (send r w1).1 = (send r w2).1.
Proof.
  intros Ho Hn Hi. unfold send. rewrite Ho, Hn, Hi.
  destruct (default false (head (outages w2))); [done|].
  destruct (request_table r) as [n|]; [|done].
  destruct (String.eqb n (table_name w2)); [|done].
  by destruct (serve r (items w2)) as [e|[a t']].
Qed.

Lemma handler_never_throws_store_error :
  (∀ productId w, ∃ v w', getProductById productId w = (Ret v, w'))
  ∧ (∀ product w, ∃ v w', createProduct product w = (Ret v, w'))
  ∧ (∀ w, ∃ v w', listProducts w = (Ret v, w'))
  ∧ (∀ productId w, ∃ v w', deleteProduct productId w = (Ret v, w'))
  ∧ (∀ product w, ∃ v w', updateProduct product w = (Ret v, w'))
  ∧ (∀ category w, ∃ v w', productsByCategory category w = (Ret v, w')).
Proof.
  repeat split; intros; unfold_handler.
  2: destruct (negb _); unfold uuid; simpl.
  all: match goal with
       | |- context [send ?r ?w0] =>
           destruct (send r w0) as [[a|e] w1]; simpl; eauto
       end.
Qed.

(** C7: each of the six handlers sends one request, returns (never throws)
    whatever becomes of it, and returns [null] ([undefined] for
    [getProductById], whose [catch] block returns nothing) when the promise
    of the request is rejected; hence the only value the lambda ever throws
    is [Error('unauthorized')]. *)
Theorem handlers_swallow_store_errors :
  (∀ productId w, ∃ v w' r,
     getProductById productId w = (Ret v, w')
     ∧ requests w' = requests w ++ [r]
     ∧ (resolves r w = false → v = Undefined))
  ∧ (∀ product w, ∃ v w' r,
       createProduct product w = (Ret v, w')
       ∧ requests w' = requests w ++ [r]
       ∧ (resolves r w = false → v = Null))
  ∧ (∀ w, ∃ v w' r,
       listProducts w = (Ret v, w')
       ∧ requests w' = requests w ++ [r]
       ∧ (resolves r w = false → v = Null))
  ∧ (∀ productId w, ∃ v w' r,
       deleteProduct productId w = (Ret v, w')
       ∧ requests w' = requests w ++ [r]
       ∧ (resolves r w = false → v = Null))
  ∧ (∀ product w, ∃ v w' r,
       updateProduct product w = (Ret v, w')
       ∧ requests w' = requests w ++ [r]
       ∧ (resolves r w = false → v = Null))
  ∧ (∀ category w, ∃ v w' r,
       productsByCategory category w = (Ret v, w')
       ∧ requests w' = requests w ++ [r]
       ∧ (resolves r w = false → v = Null))
  ∧ (∀ event w e w',
       handler event w = (Throw e, w') → e = Error "unauthorized").
Proof.
  split; [|split; [|split; [|split; [|split; [|split]]]]].
  1, 3, 4, 5, 6: intros; unfold_handler; by_send_cases.
  - intros product w. unfold_handler.
    destruct (negb (truthy (prop_get product "id"))); [|by_send_cases].
    unfold uuid; simpl.
    match goal with
    | |- context [send ?r ?w0] =>
        pose proof (send_requests r w0) as Hr;
        pose proof (send_outcome_ext r w0 w eq_refl eq_refl eq_refl) as He;
        destruct (send r w0) as [[a|e] w1]; simpl in *;
        do 3 eexists; (split; [reflexivity|]); (split; [exact Hr|]);
        unfold resolves; rewrite <- He;
        intros; (discriminate || reflexivity)
    end.
  - intros event w e w'. unfold handler.
    destruct handler_never_throws_store_error
      as (Hget & Hcreate & Hlist & Hdelete & Hupdate & Hquery).
    repeat match goal with
           | |- context [if String.eqb ?a ?b then _ else _] =>
               destruct (String.eqb a b)
           | |- context [if negb ?g then _ else _] => destruct (negb g)
           end;
      try (unfold throw; intros [= <- _]; reflexivity);
      try (unfold mret, M_ret; discriminate).
    + destruct (Hget (productId (arguments event)) w) as (v & w1 & ->).
      discriminate.
    + destruct (Hcreate (product (arguments event)) w) as (v & w1 & ->).
      discriminate.
    + destruct (Hlist w) as (v & w1 & ->). discriminate.
    + destruct (Hdelete (productId (arguments event)) w) as (v & w1 & ->).
      discriminate.
    + destruct (Hupdate (product (arguments event)) w) as (v & w1 & ->).
      discriminate.
    + destruct (Hquery (category (arguments event)) w) as (v & w1 & ->).
      discriminate.
Qed.

Lemma handlers_swallow_store_errors_witness :
  ∃ v w' r,
    listProducts (World (Some "Products") "Products" ∅ [true] [] (λ _, 0%N) [])
    = (Ret v, w')
    ∧ requests w' = [r]
    ∧ resolves r (World (Some "Products") "Products" ∅ [true] [] (λ _, 0%N) [])
      = false
    ∧ v = Null.
Proof.
  destruct (proj1 (proj2 (proj2 handlers_swallow_store_errors))
              (World (Some "Products") "Products" ∅ [true] [] (λ _, 0%N) []))
    as (v & w' & r & Hrun & Hreq & Hnull).
  exists v, w', r.
  assert (resolves r
            (World (Some "Products") "Products" ∅ [true] [] (λ _, 0%N) [])
          = false) as Hrej.
  { vm_compute in Hrun. injection Hrun as _ <-.
    simpl in Hreq. injection Hreq as <-. reflexivity. }
  exact (conj Hrun (conj Hreq (conj Hrej (Hnull Hrej)))).
Defined.

(** ** The handlers on a store that answers *)

Lemma send_online (r : request) (w : world) :
  online w = true → request_table r = env_PRODUCT_TABLE w →
  send r w = match serve r (items w) with
             | inl e => (Throw e, sent r (items w) w)
             | inr (a, t') => (Ret a, sent r t' w)
             end.
Proof.
  unfold online, send. intros Hon Hr.
  apply andb_true_iff in Hon as [Hup Hcfg].
  apply negb_true_iff in Hup. apply bool_decide_eq_true in Hcfg.
  rewrite Hup, Hr, Hcfg, String.eqb_refl. reflexivity.
Qed.

(** An object and the item it is marshalled into have the same properties. *)
Lemma marshal_lookup (o : obj) (k : string) : marshal o !! k = prop_get o k.
Proof.
  unfold marshal. induction o as [|[k' v] o IH]; [done|].
  cbn [list_to_map foldr prop_get]. simpl.
  destruct (String.eqb_spec k' k) as [->|Hne].
  - by rewrite lookup_insert_eq.
  - by rewrite lookup_insert_ne.
Qed.

Lemma prop_get_set (o : obj) (k k' : string) (v : value) :
  prop_get (prop_set o k v) k'
  = if String.eqb k k' then Some v else prop_get o k'.
Proof.
  induction o as [|[k0 v0] o IH]; simpl.
  - by destruct (String.eqb k k').
  - destruct (String.eqb_spec k0 k) as [->|Hne]; simpl.
    + by destruct (String.eqb k k').
    + rewrite IH. destruct (String.eqb_spec k0 k') as [->|Hne'];
        [|done].
      by rewrite (proj2 (String.eqb_neq k k')).
Qed.

Lemma keys_prop_get (o : obj) (k : string) :
  k ∈ keys o ↔ is_Some (prop_get o k).
Proof.
  unfold keys. induction o as [|[k0 v0] o IH]; simpl.
  - split; [by intros ?%elem_of_nil|by intros [? ?]].
  - rewrite elem_of_cons, IH.
    destruct (String.eqb_spec k0 k) as [->|Hne].
    + split; [by eauto|by left].
    + split; [intros [?|?]; [congruence|done]|by right].
Qed.

Lemma key_of_string (k : string) : k ≠ "" → key_of (Some (VStr k)) = Some k.
Proof. intros Hk%String.eqb_neq. cbn [key_of]. by rewrite Hk. Qed.

Lemma key_of_Some (v : option value) (k : string) :
  key_of v = Some k → v = Some (VStr k) ∧ k ≠ "".
Proof.
  destruct v as [[| | |k']|]; try discriminate. cbn [key_of].
  destruct (String.eqb_spec k' ""); [discriminate|]. by intros [= <-].
Qed.



(** ** Generated identifiers *)










(** ** The update expression *)

Lemma string_app_assoc (a b c : string) : (a +:+ b) +:+ c = a +:+ b +:+ c.
Proof.
  induction a as [|x a IH]; [done|].
  change (String x ((a +:+ b) +:+ c) = String x (a +:+ b +:+ c)).
  by rewrite IH.
Qed.

Lemma string_app_nil_r (a : string) : a +:+ "" = a.
Proof.
  induction a as [|x a IH]; [done|].
  change (String x (a +:+ "") = String x a). by rewrite IH.
Qed.

Lemma string_app_cons (x : ascii) (a b : string) :
  String x a +:+ b = String x (a +:+ b).
Proof. reflexivity. Qed.

(** A run of identifier characters extends the word being read. *)
Lemma lex_word (a : string) :
  all_ident a = true →
  ∀ sg w rest,
    lex (Some (sg, w)) (a +:+ rest) = lex (Some (sg, w +:+ a)) rest.
Proof.
  induction a as [|c a IH]; intros Hall sg w rest.
  - by rewrite string_app_nil_r.
  - cbn [all_ident] in Hall. apply andb_true_iff in Hall as [Hc Hall].
    rewrite string_app_cons. cbn [lex]. rewrite Hc. cbn [extend].
    rewrite (IH Hall). rewrite string_app_assoc. reflexivity.
Qed.

Lemma ident_ok_inv (a : string) :
  ident_ok a = true → a ≠ "" ∧ all_ident a = true.
Proof.
  unfold ident_ok. intros [Hne Hall]%andb_true_iff. split; [|done].
  apply negb_true_iff in Hne. by apply String.eqb_neq.
Qed.

Lemma close_word (sg : sigil) (a : string) :
  a ≠ "" →
  close (Some (sg, a))
  = Some [match sg with Bare => TWord a | Hash => TName a | Colon => TValue a end].
Proof. destruct a; [done|]. by destruct sg. Qed.

(** [#a = :a] read after the [#]. *)
Lemma lex_action (a rest : string) :
  ident_ok a = true →
  lex (Some (Hash, "")) (a +:+ " = :" +:+ a +:+ rest)
  = app [TName a; TEq] <$> lex (Some (Colon, a)) rest.
Proof.
  intros [Hne Hall]%ident_ok_inv.
  rewrite (lex_word a Hall).
  change (" = :" +:+ a +:+ rest)
    with (String " " (String "=" (String " " (String ":" (a +:+ rest))))).
  change (lex (Some (Hash, "" +:+ a))
            (String " " (String "=" (String " " (String ":" (a +:+ rest))))))
    with (match close (Some (Hash, a)) with
          | Some done =>
              app done <$>
                (app [] <$>
                   (cons TEq <$>
                      (app [] <$>
                         (app [] <$> lex (Some (Colon, "")) (a +:+ rest)))))
          | None => None
          end).
  rewrite (close_word Hash a Hne), (lex_word a Hall).
  change ("" +:+ a) with a.
  by destruct (lex (Some (Colon, a)) rest).
Qed.

Lemma lex_more_actions (l : list string) :
  Forall (λ a, ident_ok a = true) l →
  ∀ v, v ≠ "" →
    lex (Some (Colon, v)) (actions_text ", " l)
    = Some (TValue v :: more_actions l).
Proof.
  induction l as [|a l IH]; intros Hok v Hv.
  - cbn [actions_text lex]. by rewrite close_word.
  - apply Forall_cons in Hok as [Ha Hok].
    cbn [actions_text]. rewrite !string_app_assoc.
    change (", " +:+ "#" +:+ a +:+ " = :" +:+ a +:+ actions_text ", " l)
      with (String "," (String " " (String "#"
              (a +:+ " = :" +:+ a +:+ actions_text ", " l)))).
    change (lex (Some (Colon, v))
              (String "," (String " " (String "#"
                 (a +:+ " = :" +:+ a +:+ actions_text ", " l)))))
      with (match close (Some (Colon, v)) with
            | Some done =>
                app done <$>
                  (cons TComma <$>
                     (app [] <$>
                        (app [] <$>
                           lex (Some (Hash, ""))
                               (a +:+ " = :" +:+ a +:+ actions_text ", " l))))
            | None => None
            end).
    rewrite (close_word Colon v Hv), (lex_action a _ Ha).
    rewrite (IH Hok a (proj1 (ident_ok_inv a Ha))). reflexivity.
Qed.

(** The expression for a non-empty list of attributes reads as the keyword
    and one action per attribute. *)
Lemma lex_update_expression (a : string) (l : list string) :
  Forall (λ a, ident_ok a = true) (a :: l) →
  lex None (actions_text "set " (a :: l))
  = Some (TWord "set" :: TName a :: TEq :: TValue a :: more_actions l).
Proof.
  intros [Ha Hok]%Forall_cons.
  cbn [actions_text]. rewrite !string_app_assoc.
  change ("set " +:+ "#" +:+ a +:+ " = :" +:+ a +:+ actions_text ", " l)
    with (String "s" (String "e" (String "t" (String " " (String "#"
            (a +:+ " = :" +:+ a +:+ actions_text ", " l)))))).
  change (lex None
            (String "s" (String "e" (String "t" (String " " (String "#"
               (a +:+ " = :" +:+ a +:+ actions_text ", " l)))))))
    with (app [TWord "set"] <$>
            (app [] <$>
               lex (Some (Hash, ""))
                   (a +:+ " = :" +:+ a +:+ actions_text ", " l))).
  rewrite (lex_action a _ Ha).
  rewrite (lex_more_actions l Hok a (proj1 (ident_ok_inv a Ha))).
  reflexivity.
Qed.

Lemma parse_more_actions (a : string) (l : list string) :
  parse_actions (TName a :: TEq :: TValue a :: more_actions l)
  = Some ((a, a) :: map (λ b, (b, b)) l).
Proof.
  revert a. induction l as [|b l IH]; intros a; [done|].
  change (more_actions (b :: l))
    with (TComma :: TName b :: TEq :: TValue b :: more_actions l).
  change (parse_actions (TName a :: TEq :: TValue a :: TComma
                           :: TName b :: TEq :: TValue b :: more_actions l))
    with (cons (a, a) <$>
            parse_actions (TName b :: TEq :: TValue b :: more_actions l)).
  by rewrite IH.
Qed.

Lemma parse_update_expression (a : string) (l : list string) :
  Forall (λ a, ident_ok a = true) (a :: l) →
  parse_update (actions_text "set " (a :: l))
  = Some (map (λ b, (b, b)) (a :: l)).
Proof.
  intros Hok. unfold parse_update.
  rewrite (lex_update_expression a l Hok).
  change (String.eqb "set" "set" || String.eqb "set" "SET") with true.
  cbv iota. apply parse_more_actions.
Qed.

(** What the loop of [updateProduct] leaves in [params]. *)
Section loop_facts.
Variable product : obj.

Lemma loop_cons_id (l : list string) params prefix :
  update_loop product ("id" :: l) params prefix
  = update_loop product l params prefix.
Proof. reflexivity. Qed.

Lemma loop_cons_other (a : string) (l : list string) params prefix :
  a ≠ "id" →
  update_loop product (a :: l) params prefix
  = update_loop product l
      {| TableName := TableName params;
         Key_id := Key_id params;
         ExpressionAttributeValues :=
           partial_alter (λ _, prop_get product a) (":" +:+ a)
                         (ExpressionAttributeValues params);
         ExpressionAttributeNames :=
           <["#" +:+ a := a]> (ExpressionAttributeNames params);
         UpdateExpression :=
           UpdateExpression params
           +:+ (((prefix +:+ "#") +:+ a) +:+ " = :") +:+ a;
         ReturnValues := ReturnValues params |}
      ", ".
Proof.
  intros Hne. unfold update_loop. cbn [fold_left update_step].
  apply String.eqb_neq in Hne. by rewrite Hne.
Qed.

Lemma loop_frame (l : list string) params prefix :
  TableName (update_loop product l params prefix) = TableName params
  ∧ Key_id (update_loop product l params prefix) = Key_id params.
Proof.
  revert params prefix. induction l as [|a l IH]; intros params prefix;
    [done|].
  destruct (decide (a = "id")) as [->|Hne].
  - rewrite loop_cons_id. apply IH.
  - rewrite loop_cons_other by done.
    destruct (IH {| TableName := TableName params;
         Key_id := Key_id params;
         ExpressionAttributeValues :=
           partial_alter (λ _, prop_get product a) (":" +:+ a)
                         (ExpressionAttributeValues params);
         ExpressionAttributeNames :=
           <["#" +:+ a := a]> (ExpressionAttributeNames params);
         UpdateExpression :=
           UpdateExpression params
           +:+ (((prefix +:+ "#") +:+ a) +:+ " = :") +:+ a;
         ReturnValues := ReturnValues params |} ", ") as [-> ->]. done.
Qed.

Lemma loop_expression (l : list string) params prefix :
  UpdateExpression (update_loop product l params prefix)
  = UpdateExpression params
    +:+ actions_text prefix (filter (λ a, a ≠ "id") l).
Proof.
  revert params prefix. induction l as [|a l IH]; intros params prefix.
  - by rewrite string_app_nil_r.
  - destruct (decide (a = "id")) as [->|Hne].
    + rewrite loop_cons_id, filter_cons_False by (by intros []). apply IH.
    + rewrite loop_cons_other, filter_cons_True, IH by done.
      cbn [UpdateExpression actions_text].
      by rewrite !string_app_assoc.
Qed.

Lemma loop_names (l : list string) params prefix (a : string) :
  ExpressionAttributeNames (update_loop product l params prefix)
    !! ("#" +:+ a)
  = if decide (a ∈ filter (λ a, a ≠ "id") l) then Some a
    else ExpressionAttributeNames params !! ("#" +:+ a).
Proof.
  revert params prefix. induction l as [|b l IH]; intros params prefix.
  - by rewrite decide_False by apply not_elem_of_nil.
  - destruct (decide (b = "id")) as [->|Hne].
    + rewrite loop_cons_id, filter_cons_False by (by intros []). apply IH.
    + rewrite loop_cons_other, filter_cons_True, IH by done.
      cbn [ExpressionAttributeNames].
      destruct (decide (a = b)) as [->|Hab].
      * rewrite lookup_insert_eq.
        rewrite (decide_True (P := b ∈ b :: _)) by (apply elem_of_cons; by left).
        by case_decide.
      * rewrite lookup_insert_ne
          by (by intros ?%(inj (String.append "#"))).
        destruct (decide (a ∈ filter (λ a, a ≠ "id") l)) as [Hin|Hnin].
        { by rewrite decide_True by (apply elem_of_cons; by right). }
        { by rewrite decide_False
            by (rewrite elem_of_cons; by intros [?|?]). }
Qed.

Lemma loop_values (l : list string) params prefix (a : string) :
  ExpressionAttributeValues (update_loop product l params prefix)
    !! (":" +:+ a)
  = if decide (a ∈ filter (λ a, a ≠ "id") l) then prop_get product a
    else ExpressionAttributeValues params !! (":" +:+ a).
Proof.
  revert params prefix. induction l as [|b l IH]; intros params prefix.
  - by rewrite decide_False by apply not_elem_of_nil.
  - destruct (decide (b = "id")) as [->|Hne].
    + rewrite loop_cons_id, filter_cons_False by (by intros []). apply IH.
    + rewrite loop_cons_other, filter_cons_True, IH by done.
      cbn [ExpressionAttributeValues].
      destruct (decide (a = b)) as [->|Hab].
      * rewrite lookup_partial_alter_eq.
        rewrite (decide_True (P := b ∈ b :: _)) by (apply elem_of_cons; by left).
        by case_decide.
      * rewrite lookup_partial_alter_ne
          by (by intros ?%(inj (String.append ":"))).
        destruct (decide (a ∈ filter (λ a, a ≠ "id") l)) as [Hin|Hnin].
        { by rewrite decide_True by (apply elem_of_cons; by right). }
        { by rewrite decide_False
            by (rewrite elem_of_cons; by intros [?|?]). }
Qed.
End loop_facts.

(** The request of [updateProduct], field by field. *)
Lemma update_params_frame (table : option string) (product : obj) :
  request_table (ReqUpdate (update_params table product)) = table
  ∧ Key_id (update_params table product) = prop_get product "id".
Proof. unfold update_params. cbv zeta. cbn [request_table]. apply loop_frame. Qed.

Lemma update_params_expression (table : option string) (product : obj) :
  UpdateExpression (update_params table product)
  = actions_text "set " (patch_attributes product).
Proof. unfold update_params. cbv zeta. by rewrite loop_expression. Qed.

Lemma update_params_resolve (table : option string) (product : obj) (a : string) :
  a ∈ patch_attributes product →
  resolve (ExpressionAttributeNames (update_params table product))
          (ExpressionAttributeValues (update_params table product)) (a, a)
  = Some (a, default VNull (prop_get product a)).
Proof.
  intros Hin. unfold resolve, update_params. cbv zeta. cbn [fst snd].
  rewrite loop_names, loop_values.
  fold (patch_attributes product). rewrite !decide_True by done.
  assert (is_Some (prop_get product a)) as [v ->]; [|done].
  apply keys_prop_get. unfold patch_attributes in Hin.
  by apply list_elem_of_filter in Hin as [_ ?].
Qed.

Lemma mapM_resolve (names : gmap string string) (values : gmap string value)
    (f : string → value) (l : list string) :
  (∀ a, a ∈ l → resolve names values (a, a) = Some (a, f a)) →
  mapM (resolve names values) (map (λ b, (b, b)) l)
  = Some (map (λ b, (b, f b)) l).
Proof.
  induction l as [|a l IH]; intros Hres; [done|].
  cbn [map mapM]. rewrite Hres by (apply elem_of_cons; by left).
  cbn. rewrite IH; [done|]. intros b Hb. apply Hres, elem_of_cons. by right.
Qed.


Lemma patch_attributes_elem (product : obj) (a : string) :
  a ∈ patch_attributes product ↔ a ∈ keys product ∧ a ≠ "id".
Proof. unfold patch_attributes. rewrite list_elem_of_filter. tauto. Qed.



Lemma serve_update_empty (table : option string) (product : obj)
    (t : gmap string item) :
  patch_attributes product = [] →
  UpdateExpression (update_params table product) = ""
  ∧ serve (ReqUpdate (update_params table product)) t
    = inl (AWSError "ValidationException").
Proof.
  intros Hnil. assert (UpdateExpression (update_params table product) = "")
    as Hexp by (by rewrite update_params_expression, Hnil).
  split; [done|]. cbn [serve]. rewrite Hexp.
  by destruct (key_of (Key_id (update_params table product))).
Qed.

(** A request that the service refuses is rejected, and the table stays. *)
Lemma send_refused (r : request) (w : world) (e0 : exn) :
  serve r (items w) = inl e0 →
  ∃ e, send r w = (Throw e, sent r (items w) w).
Proof.
  intros Hserve. unfold send. rewrite Hserve.
  destruct (default false (head (outages w))); [by eexists|].
  destruct (request_table r) as [n|]; [|by eexists].
  destruct (String.eqb n (table_name w)); by eexists.
Qed.



(** C5: when the promise of the update resolves, [updateProduct] returns
    the object it was given. That object is not the record as stored: in
    P5 the stored record keeps [name] and [category], the returned object
    has neither. *)
Theorem updateProduct_returns_input :
  (∀ product w,
     resolves (ReqUpdate (update_params (env_PRODUCT_TABLE w) product)) w
     = true →
     ∃ w', updateProduct product w = (Ret (Obj product), w'))
  ∧ (∃ w' stored',
       updateProduct p5_input p5_world = (Ret (Obj p5_input), w')
       ∧ items w' !! "1" = Some stored'
       ∧ stored' !! "name" = Some (VStr "A")
       ∧ prop_get p5_input "name" = None
       ∧ marshal p5_input ≠ stored').
Proof.
  split.
  - intros product w. unfold_handler. unfold resolves.
    destruct (send _ w) as [[a|e] w1]; [|discriminate].
    intros _. by eexists.
  - eexists _, _. split; [vm_compute; reflexivity|].
    split; [vm_compute; reflexivity|]. split; [reflexivity|].
    split; [reflexivity|].
    intros Heq. apply (f_equal (λ m : item, m !! "name")) in Heq.
    vm_compute in Heq. discriminate Heq.
Qed.

Lemma updateProduct_returns_input_witness :
  ∃ w', updateProduct p5_input p5_world = (Ret (Obj p5_input), w').
Proof.
  apply (proj1 updateProduct_returns_input p5_input p5_world). reflexivity.
Defined.

(** The loop of [updateProduct] on an input with no attribute besides [id]
    leaves [params] as it was initialised. *)
Lemma update_params_id_only (table : option string) (product : obj) :
  (∀ a, a ∈ keys product → a = "id") →
  update_params table product
  = {| TableName := table;
       Key_id := prop_get product "id";
       UpdateExpression := "";
       ExpressionAttributeNames := ∅;
       ExpressionAttributeValues := ∅;
       ReturnValues := "UPDATED_NEW" |}.
Proof.
  unfold update_params. cbv zeta.
  generalize ({| TableName := table;
                 Key_id := prop_get product "id";
                 UpdateExpression := "";
                 ExpressionAttributeNames := ∅;
                 ExpressionAttributeValues := ∅;
                 ReturnValues := "UPDATED_NEW" |}) as params.
  generalize "set " as prefix.
  induction (keys product) as [|a l IH]; intros prefix params Hall; [done|].
  rewrite (Hall a) by (apply elem_of_cons; by left). cbn [fold_left].
  change (update_step product (params, prefix) "id") with (params, prefix).
  apply IH. intros b Hb. apply Hall, elem_of_cons. by right.
Qed.

(** C9, as the code has it: for an input with no attribute besides [id] the
    request carries the empty update expression and no names or values; the
    service refuses it whatever the state of the store, [updateProduct]
    catches the rejection, logs it and returns [null] without throwing, and
    the table is left as it was. *)
Theorem updateProduct_id_only_returns_null (product : obj) (w : world) :
  (∀ a, a ∈ keys product → a = "id") →
  ∃ e,
    updateProduct product w
    = (Ret Null,
       logged e
         (sent (ReqUpdate {| TableName := env_PRODUCT_TABLE w;
                             Key_id := prop_get product "id";
                             UpdateExpression := "";
                             ExpressionAttributeNames := ∅;
                             ExpressionAttributeValues := ∅;
                             ReturnValues := "UPDATED_NEW" |})
               (items w) w))
    ∧ items (updateProduct product w).2 = items w.
Proof.
  intros Hid. unfold_handler.
  assert (patch_attributes product = []) as Hnil.
  { apply elem_of_nil_inv. intros a [Hin Hne]%patch_attributes_elem.
    by apply Hne, Hid. }
  destruct (serve_update_empty (env_PRODUCT_TABLE w) product (items w) Hnil)
    as [_ Hserve].
  destruct (send_refused _ w _ Hserve) as [e Hsend].
  rewrite Hsend. rewrite (update_params_id_only _ _ Hid).
  exists e. by split.
Qed.

Lemma updateProduct_id_only_returns_null_witness :
  ∃ e w', updateProduct [("id", VStr "1")] p5_world = (Ret Null, w')
          ∧ console w' = [e]
          ∧ items w' = items p5_world.
Proof.
  destruct (updateProduct_id_only_returns_null [("id", VStr "1")] p5_world)
    as (e & Hrun & Hitems).
  { intros a Hin. apply list_elem_of_In in Hin. simpl in Hin.
    destruct Hin as [<-|[]]. reflexivity. }
  exists e. eexists. split; [exact Hrun|]. split; [reflexivity|reflexivity].
Defined.

(** C9 as the specification has it fails on P5's table: the update with
    only the [id] returns [null], not the input. *)
Lemma updateProduct_id_only_not_success :
  (updateProduct [("id", VStr "1")] p5_world).1 = Ret Null
  ∧ ¬ ∃ w', updateProduct [("id", VStr "1")] p5_world
            = (Ret (Obj [("id", VStr "1")]), w').
Proof.
  split; [reflexivity|]. intros [w' Hrun].
  apply (f_equal fst) in Hrun. vm_compute in Hrun. discriminate Hrun.
Qed.

(** * Further properties of the handlers *)

(** ** What a request leaves behind *)

Lemma send_Ret (r : request) (w w' : world) (a : reply) :
  send r w = (Ret a, w') →
  ∃ t', serve r (items w) = inr (a, t') ∧ w' = sent r t' w
        ∧ request_table r = Some (table_name w).
Proof.
  unfold send. destruct (default false (head (outages w))); [discriminate|].
  destruct (request_table r) as [n|]; [|discriminate].
  destruct (String.eqb_spec n (table_name w)) as [->|]; [|discriminate].
  destruct (serve r (items w)) as [e|[a' t']]; [discriminate|].
  intros [= <- <-]. by exists t'.
Qed.

Lemma send_Throw (r : request) (w w' : world) (e : exn) :
  send r w = (Throw e, w') → w' = sent r (items w) w.
Proof.
  unfold send. destruct (default false (head (outages w))); [by intros [= _ <-]|].
  destruct (request_table r) as [n|]; [|by intros [= _ <-]].
  destruct (String.eqb n (table_name w)); [|by intros [= _ <-]].
  destruct (serve r (items w)) as [e'|[a' t']]; [by intros [= _ <-]|].
  discriminate.
Qed.

Lemma checkForGroup_true (event : AppSyncEvent) (idn : Identity)
    (groups : list string) (groupName : string) :
  identity event = Some idn →
  claims idn !! "cognito:groups" = Some groups →
  groupName ∈ groups →
  checkForGroup event groupName = true.
Proof. intros Hi Hc Hin. apply checkForGroup_spec. by exists idn, groups. Qed.

(** X1: a caller whose ['cognito:groups'] claim lists ['Admin'], among any
    other groups, passes the guard: each of the three mutations is its
    handler applied to the arguments of the event. *)
Theorem handler_admin_runs_mutation
    (event : AppSyncEvent) (idn : Identity) (groups : list string)
    (w : world) :
  identity event = Some idn →
  claims idn !! "cognito:groups" = Some groups →
  "Admin" ∈ groups →
  (info_fieldName event = "createProduct" →
   handler event w = createProduct (product (arguments event)) w)
  ∧ (info_fieldName event = "updateProduct" →
     handler event w = updateProduct (product (arguments event)) w)
  ∧ (info_fieldName event = "deleteProduct" →
     handler event w = deleteProduct (productId (arguments event)) w).
Proof.
  intros Hi Hc Hin.
  pose proof (checkForGroup_true event idn groups "Admin" Hi Hc Hin) as Hg.
  repeat split; intros Hf; unfold handler; by rewrite Hf, Hg.
Qed.

Lemma handler_admin_runs_mutation_witness :
  handler {| info_fieldName := "deleteProduct";
             arguments := {| productId := "1"; category := "";
                             product := [] |};
             identity :=
               Some {| username := "ann";
                       claims := {["cognito:groups" := ["Staff"; "Admin"]]} |} |}
          p5_world
  = deleteProduct "1" p5_world.
Proof.
  refine (proj2 (proj2 (handler_admin_runs_mutation
           {| info_fieldName := "deleteProduct";
              arguments := {| productId := "1"; category := "";
                              product := [] |};
              identity :=
                Some {| username := "ann";
                        claims := {["cognito:groups" := ["Staff"; "Admin"]]} |} |}
           {| username := "ann";
              claims := {["cognito:groups" := ["Staff"; "Admin"]]} |}
           ["Staff"; "Admin"] p5_world _ _ _)) _); try reflexivity.
  apply elem_of_cons. right. apply elem_of_cons. by left.
Defined.

(** Each handler as one [send] and what is made of its outcome. *)
Lemma getProductById_run (productId : string) (w : world) :
  getProductById productId w
  = match send (ReqGet {| get_TableName := env_PRODUCT_TABLE w;
                          get_Key_id := VStr productId |}) w with
    | (Ret a, w1) =>
        (Ret (match a with Found (Some it) => Item it | _ => Undefined end),
         w1)
    | (Throw e, w1) => (Ret Undefined, logged e w1)
    end.
Proof.
  unfold_handler. destruct (send _ w) as [[a|e] w1]; [|done].
  by destruct a as [|[it|]|].
Qed.

Lemma listProducts_run (w : world) :
  listProducts w
  = match send (ReqScan {| scan_TableName := env_PRODUCT_TABLE w |}) w with
    | (Ret a, w1) =>
        (Ret (Items (match a with Many l => l | _ => [] end)), w1)
    | (Throw e, w1) => (Ret Null, logged e w1)
    end.
Proof. unfold_handler. by destruct (send _ w) as [[a|e] w1]. Qed.

Lemma productsByCategory_run (category : string) (w : world) :
  productsByCategory category w
  = match send (ReqQuery
                  {| query_TableName := env_PRODUCT_TABLE w;
                     query_IndexName := "productsByCategory";
                     query_KeyConditionExpression := "#fieldName = :category";
                     query_ExpressionAttributeNames :=
                       {["#fieldName" := "category"]};
                     query_ExpressionAttributeValues :=
                       {[":category" := VStr category]} |}) w with
    | (Ret a, w1) =>
        (Ret (Items (match a with Many l => l | _ => [] end)), w1)
    | (Throw e, w1) => (Ret Null, logged e w1)
    end.
Proof. unfold_handler. by destruct (send _ w) as [[a|e] w1]. Qed.

Lemma deleteProduct_run (productId : string) (w : world) :
  deleteProduct productId w
  = match send (ReqDelete {| delete_TableName := env_PRODUCT_TABLE w;
                             delete_Key_id := VStr productId |}) w with
    | (Ret a, w1) => (Ret (Str productId), w1)
    | (Throw e, w1) => (Ret Null, logged e w1)
    end.
Proof. unfold_handler. by destruct (send _ w) as [[a|e] w1]. Qed.

Lemma updateProduct_run (product : obj) (w : world) :
  updateProduct product w
  = match send (ReqUpdate (update_params (env_PRODUCT_TABLE w) product)) w with
    | (Ret a, w1) => (Ret (Obj product), w1)
    | (Throw e, w1) => (Ret Null, logged e w1)
    end.
Proof. unfold_handler. by destruct (send _ w) as [[a|e] w1]. Qed.

Lemma createProduct_run (product : obj) (w : world) :
  createProduct product w
  = let product' :=
      if truthy (prop_get product "id") then product
      else prop_set product "id" (VStr (v4 (entropy w))) in
    let w0 := if truthy (prop_get product "id") then w else drawn w in
    match send (ReqPut {| put_TableName := env_PRODUCT_TABLE w;
                          put_Item := product' |}) w0 with
    | (Ret a, w1) => (Ret (Obj product'), w1)
    | (Throw e, w1) => (Ret Null, logged e w1)
    end.
Proof.
  unfold_handler. destruct (truthy (prop_get product "id")); cbn.
  - by destruct (send _ w) as [[a|e] w1].
  - unfold drawn, uuid. cbn. by destruct (send _ _) as [[a|e] w1].
Qed.

(** The requests that do not write. *)
Lemma serve_read (r : request) (t t' : table) (a : reply) :
  match r with ReqGet _ | ReqScan _ | ReqQuery _ => True | _ => False end →
  serve r t = inr (a, t') → t' = t.
Proof.
  destruct r as [p|p|p|p|p|p]; try done; intros _; cbn [serve].
  - destruct (key_of _); [|discriminate]. by intros [= _ <-].
  - by intros [= _ <-].
  - destruct (index_key _); [|discriminate].
    destruct (_ ≫= _) as [[a' x]|]; [|discriminate].
    destruct (String.eqb a' s); [|discriminate]. by intros [= _ <-].
Qed.

Lemma send_read_items (r : request) (w : world) :
  match r with ReqGet _ | ReqScan _ | ReqQuery _ => True | _ => False end →
  items (send r w).2 = items w.
Proof.
  intros Hr. destruct (send r w) as [[a|e] w1] eqn:Hs; cbn.
  - apply send_Ret in Hs as (t' & Hserve & -> & _).
    by apply (serve_read r _ _ _ Hr) in Hserve as ->.
  - by apply send_Throw in Hs as ->.
Qed.

(** X2: the three read handlers never change the table, whether the store
    answers or not. *)
Theorem reads_leave_table (w : world) :
  (∀ productId, items (getProductById productId w).2 = items w)
  ∧ items (listProducts w).2 = items w
  ∧ (∀ category, items (productsByCategory category w).2 = items w).
Proof.
  split; [|split]; intros;
    rewrite ?getProductById_run, ?listProducts_run, ?productsByCategory_run;
    match goal with
    | |- context [send ?r w] =>
        pose proof (send_read_items r w I) as Hit;
        by destruct (send r w) as [[a|e] w1]
    end.
Qed.

Lemma handlers_send_one_request (w : world) :
  (∀ productId, ∃ r, requests (getProductById productId w).2 = requests w ++ [r])
  ∧ (∀ product, ∃ r, requests (createProduct product w).2 = requests w ++ [r])
  ∧ (∃ r, requests (listProducts w).2 = requests w ++ [r])
  ∧ (∀ productId, ∃ r, requests (deleteProduct productId w).2 = requests w ++ [r])
  ∧ (∀ product, ∃ r, requests (updateProduct product w).2 = requests w ++ [r])
  ∧ (∀ category, ∃ r,
       requests (productsByCategory category w).2 = requests w ++ [r]).
Proof.
  repeat split; intros;
    rewrite ?getProductById_run, ?createProduct_run, ?listProducts_run,
      ?deleteProduct_run, ?updateProduct_run, ?productsByCategory_run;
    cbv zeta;
    match goal with
    | |- context [send ?r ?w0] =>
        exists r; pose proof (send_requests r w0) as Hr;
        destruct (send r w0) as [[a|e] w1]; cbn in *; rewrite Hr;
        try destruct (truthy _); reflexivity
    end.
Qed.

(** X3: one invocation of the lambda sends at most one request to the
    store, whatever the event is: none when the field name is not one of the
    six labels or when the field is a mutation and the guard refuses the
    caller, exactly one when the field is a read or a mutation that the
    guard lets through. *)
Theorem handler_at_most_one_request (event : AppSyncEvent) (w : world) :
  let f := info_fieldName event in
  let read :=
    f = "getProductById" ∨ f = "listProducts" ∨ f = "productsByCategory" in
  let mutation :=
    f = "createProduct" ∨ f = "updateProduct" ∨ f = "deleteProduct" in
  ((¬ read ∧ ¬ mutation) ∨ (mutation ∧ checkForGroup event "Admin" = false) →
   requests (handler event w).2 = requests w)
  ∧ (read ∨ (mutation ∧ checkForGroup event "Admin" = true) →
     ∃ r, requests (handler event w).2 = requests w ++ [r]).
Proof.
  cbv zeta.
  destruct (handlers_send_one_request w)
    as (Hget & Hcreate & Hlist & Hdelete & Hupdate & Hquery).
  split.
  - intros [[Hread Hmut]|[Hmut Hguard]].
    + unfold handler.
      repeat match goal with
             | |- context [if String.eqb ?a ?b then _ else _] =>
                 destruct (String.eqb_spec a b) as [Heq|_];
                 [exfalso; tauto|]
             end.
      reflexivity.
    + by rewrite (handler_mutation_unauthorized event w Hmut Hguard).
  - intros [[Hf|[Hf|Hf]]|[[Hf|[Hf|Hf]] Hguard]]; unfold handler;
      rewrite Hf, ?Hguard.
    + exact (Hget _).
    + exact Hlist.
    + exact (Hquery _).
    + exact (Hcreate _).
    + exact (Hupdate _).
    + exact (Hdelete _).
Qed.

Lemma handler_at_most_one_request_witness :
  requests (handler {| info_fieldName := "createProduct";
                       arguments := {| productId := ""; category := "";
                                       product := p5_input |};
                       identity := None |} p5_world).2
  = requests p5_world.
Proof.
  refine (proj1 (handler_at_most_one_request
                   {| info_fieldName := "createProduct";
                      arguments := {| productId := ""; category := "";
                                      product := p5_input |};
                      identity := None |} p5_world) _).
  right. split; [left|]; reflexivity.
Defined.

Lemma send_offline (r : request) (w0 w : world) :
  online w = false →
  outages w0 = outages w → table_name w0 = table_name w →
  request_table r = env_PRODUCT_TABLE w →
  ∃ e, send r w0 = (Throw e, sent r (items w0) w0).
Proof.
  unfold online, send. intros Hoff -> -> ->.
  destruct (default false (head (outages w))); [by eexists|].
  destruct (env_PRODUCT_TABLE w) as [n|]; [|by eexists].
  destruct (String.eqb_spec n (table_name w)) as [->|]; [|by eexists].
  cbn in Hoff. by rewrite bool_decide_eq_true_2 in Hoff.
Qed.

(** X4: when the store cannot be reached, or [PRODUCT_TABLE] is unset or
    does not name the table, every handler returns "no data" ([undefined]
    from [getProductById], [null] from the others), logs one error and leaves
    the table as it was. *)
Theorem handlers_offline (w : world) :
  online w = false →
  (∀ productId, ∃ e w',
     getProductById productId w = (Ret Undefined, w')
     ∧ items w' = items w ∧ console w' = console w ++ [e])
  ∧ (∀ product, ∃ e w',
       createProduct product w = (Ret Null, w')
       ∧ items w' = items w ∧ console w' = console w ++ [e])
  ∧ (∃ e w', listProducts w = (Ret Null, w')
             ∧ items w' = items w ∧ console w' = console w ++ [e])
  ∧ (∀ productId, ∃ e w',
       deleteProduct productId w = (Ret Null, w')
       ∧ items w' = items w ∧ console w' = console w ++ [e])
  ∧ (∀ product, ∃ e w',
       updateProduct product w = (Ret Null, w')
       ∧ items w' = items w ∧ console w' = console w ++ [e])
  ∧ (∀ category, ∃ e w',
       productsByCategory category w = (Ret Null, w')
       ∧ items w' = items w ∧ console w' = console w ++ [e]).
Proof.
  intros Hoff.
  repeat split; intros;
    rewrite ?getProductById_run, ?createProduct_run, ?listProducts_run,
      ?deleteProduct_run, ?updateProduct_run, ?productsByCategory_run;
    cbv zeta;
    match goal with
    | |- context [send ?r ?w0] =>
        let He := fresh in
        assert (∃ e, send r w0 = (Throw e, sent r (items w0) w0))
          as [e He];
        [apply (send_offline r w0 w Hoff);
         try (by destruct (truthy _));
         by rewrite ?(proj1 (update_params_frame _ _))
        |rewrite He; exists e; eexists; split; [reflexivity|];
         by destruct (truthy _) || done]
    end.
Qed.

Lemma handlers_offline_witness :
  ∃ e w',
    createProduct [("name", VStr "Shoe")]
      (World None "Products" ∅ [] [] (λ _, 0%N) [])
    = (Ret Null, w')
    ∧ items w' = ∅ ∧ console w' = [e].
Proof.
  destruct (proj1 (proj2 (handlers_offline
                            (World None "Products" ∅ [] [] (λ _, 0%N) [])
                            eq_refl))
              [("name", VStr "Shoe")]) as (e & w' & H).
  exists e, w'. exact H.
Defined.

(** ** The reads on a store that answers *)



(** X6: on a store that answers, [listProducts] returns an array (not
    [null]) and leaves the table as it was. The entries of the array are
    items of the table, taken under keys that are pairwise different, so no
    record is listed twice; on the empty table the array is empty. *)
Theorem listProducts_items (w : world) :
  online w = true →
  ∃ l w',
    listProducts w = (Ret (Items l), w')
    ∧ (∃ ks, NoDup ks ∧ Forall2 (λ k it, items w !! k = Some it) ks l)
    ∧ (items w = ∅ → l = [])
    ∧ items w' = items w.
Proof.
  intros Hon. rewrite listProducts_run, send_online by done.
  cbn [serve]. eexists _, _. split; [reflexivity|].
  split; [|split].
  - exists (map fst (map_to_list (items w))).
    split; [apply NoDup_fst_map_to_list|].
    apply Forall2_fmap, Forall_Forall2_diag, Forall_forall.
    intros [k it] Hin. by apply elem_of_map_to_list.
  - intros ->. by rewrite map_to_list_empty.
  - reflexivity.
Qed.

Lemma listProducts_items_witness :
  ∃ w', listProducts (World (Some "Products") "Products" ∅ [] [] (λ _, 0%N) [])
        = (Ret (Items []), w').
Proof.
  destruct (listProducts_items
              (World (Some "Products") "Products" ∅ [] [] (λ _, 0%N) [])
              eq_refl)
    as (l & w' & Hrun & _ & Hnil & _).
  exists w'. rewrite Hrun, (Hnil eq_refl). reflexivity.
Defined.



(** ** Writes followed by reads *)

Lemma serve_put_inv (p : PutParams) (t t' : table) (a : reply) :
  serve (ReqPut p) t = inr (a, t') →
  ∃ k, (marshal (put_Item p) !! "id" = Some (VStr k) ∧ k ≠ "")
       ∧ t' = <[k := marshal (put_Item p)]> t.
Proof.
  cbn [serve]. destruct (key_of _) as [k|] eqn:Hk; [|discriminate].
  apply key_of_Some in Hk. intros [= _ <-]. by exists k.
Qed.

(** What [createProduct] has done when it returns a product. *)
Lemma createProduct_Obj (product o : obj) (w w1 : world) :
  createProduct product w = (Ret (Obj o), w1) →
  ∃ k, (prop_get o "id" = Some (VStr k) ∧ k ≠ "")
       ∧ items w1 = <[k := marshal o]> (items w)
       ∧ env_PRODUCT_TABLE w1 = env_PRODUCT_TABLE w
       ∧ table_name w1 = table_name w
       ∧ o = (if truthy (prop_get product "id") then product
              else prop_set product "id" (VStr (v4 (entropy w)))).
Proof.
  rewrite createProduct_run. cbv zeta.
  destruct (send _ _) as [[a|e] w'] eqn:Hs; [|discriminate].
  intros [= <- <-].
  apply send_Ret in Hs as (t' & (k & Hid & ->)%serve_put_inv & -> & _).
  cbn [put_Item] in *. rewrite marshal_lookup in Hid.
  exists k. by destruct (truthy (prop_get product "id")).
Qed.

(** X8: whenever [createProduct] returns a product, that product has a
    string [id], and on a store that answers from its current contents
    [getProductById] on that [id] returns the product as it was stored. *)
Theorem createProduct_then_getProductById
    (product o : obj) (w w1 : world) :
  createProduct product w = (Ret (Obj o), w1) →
  online w1 = true →
  ∃ pid w2,
    prop_get o "id" = Some (VStr pid)
    ∧ getProductById pid w1 = (Ret (Item (marshal o)), w2).
Proof.
  intros (k & [Hid Hkey] & Hitems & _)%createProduct_Obj Hon.
  exists k. eexists. split; [exact Hid|].
  rewrite getProductById_run, send_online by done.
  cbn [serve get_Key_id]. rewrite (key_of_string _ Hkey).
  by rewrite Hitems, lookup_insert_eq.
Qed.

Lemma createProduct_then_getProductById_witness :
  ∃ pid w2,
    prop_get [("name", VStr "Shoe"); ("id", VStr (v4 (λ _, 0%N)))] "id"
    = Some (VStr pid)
    ∧ getProductById pid
        (createProduct [("name", VStr "Shoe")] p5_world).2
      = (Ret (Item (marshal [("name", VStr "Shoe");
                             ("id", VStr (v4 (λ _, 0%N)))])), w2).
Proof.
  apply (createProduct_then_getProductById [("name", VStr "Shoe")] _ p5_world);
    reflexivity.
Defined.

(** X9: whenever [deleteProduct] returns an id, the item under it is gone:
    on a store that answers from its current contents [getProductById] on
    that id returns [undefined], and every other item is still there. *)
Theorem deleteProduct_then_getProductById
    (productId returned : string) (w w1 : world) :
  deleteProduct productId w = (Ret (Str returned), w1) →
  online w1 = true →
  returned = productId
  ∧ (∃ w2, getProductById productId w1 = (Ret Undefined, w2))
  ∧ (∀ k, k ≠ productId → items w1 !! k = items w !! k).
Proof.
  rewrite deleteProduct_run.
  destruct (send _ w) as [[a|e] w'] eqn:Hs; [|discriminate].
  intros [= <- <-] Hon.
  apply send_Ret in Hs as (t' & Hserve & -> & _).
  cbn [serve delete_Key_id] in Hserve.
  destruct (key_of _) as [k|] eqn:Hkey; [|discriminate].
  pose proof Hkey as [[= <-] _]%key_of_Some. injection Hserve as _ <-.
  split; [done|]. split.
  - eexists. rewrite getProductById_run, send_online by done.
    cbn [serve get_Key_id]. rewrite Hkey. cbn [items sent].
    by rewrite lookup_delete_eq.
  - intros k Hk. cbn [items sent]. by rewrite lookup_delete_ne.
Qed.

Lemma deleteProduct_then_getProductById_witness :
  "1" = "1"
  ∧ (∃ w2, getProductById "1" (deleteProduct "1" p5_world).2
           = (Ret Undefined, w2))
  ∧ (∀ k, k ≠ "1" →
          items (deleteProduct "1" p5_world).2 !! k = items p5_world !! k).
Proof.
  apply (deleteProduct_then_getProductById "1" "1" p5_world); reflexivity.
Defined.

(** ** What the writes keep *)

(** The loop never names [id] as an attribute to set. *)
Lemma loop_names_not_id (product : obj) (l : list string) params prefix :
  (∀ k a, ExpressionAttributeNames params !! k = Some a → a ≠ "id") →
  ∀ k a,
    ExpressionAttributeNames (update_loop product l params prefix) !! k
    = Some a →
    a ≠ "id".
Proof.
  revert params prefix. induction l as [|b l IH]; intros params prefix Hinit;
    [done|].
  destruct (decide (b = "id")) as [->|Hne].
  - rewrite loop_cons_id. by apply IH.
  - rewrite loop_cons_other by done. apply IH. cbn [ExpressionAttributeNames].
    intros k a. destruct (decide ("#" +:+ b = k)) as [<-|Hk].
    + rewrite lookup_insert_eq. by intros [= <-].
    + rewrite lookup_insert_ne by done. apply Hinit.
Qed.

Lemma apply_sets_other (sets : list (string * value)) (it : item) (k : string) :
  Forall (λ s, s.1 ≠ k) sets → apply_sets sets it !! k = it !! k.
Proof.
  revert it. induction sets as [|[a x] sets IH]; intros it Hall; [done|].
  apply Forall_cons in Hall as [Ha Hall]. cbn [apply_sets fold_left fst snd].
  fold (apply_sets sets). rewrite IH by done. by rewrite lookup_insert_ne.
Qed.

(** The SET actions that the service reads off a request of
    [updateProduct] never target [id]. *)
Lemma update_sets_not_id (table : option string) (product : obj)
    (sets : list (string * value)) :
  parse_update (UpdateExpression (update_params table product))
    ≫= mapM (resolve (ExpressionAttributeNames (update_params table product))
                     (ExpressionAttributeValues (update_params table product)))
  = Some sets →
  Forall (λ s, s.1 ≠ "id") sets.
Proof.
  destruct (parse_update _) as [actions|]; [|discriminate].
  cbn [mbind option_bind]. intros Hsets%mapM_Some_1.
  induction Hsets as [|act [a x] actions sets Hres _ IH]; constructor; [|done].
  unfold resolve in Hres. cbn [fst].
  destruct (ExpressionAttributeNames _ !! _) as [a'|] eqn:Hname;
    [|discriminate].
  cbn [mbind option_bind] in Hres.
  destruct (ExpressionAttributeValues _ !! _); [|discriminate].
  injection Hres as <- _. revert Hname. unfold update_params. cbv zeta.
  apply loop_names_not_id. cbn [ExpressionAttributeNames]. intros k a.
  by rewrite lookup_empty.
Qed.

Lemma serve_update_inv (table : option string) (product : obj)
    (t t' : gmap string item) (a : reply) :
  serve (ReqUpdate (update_params table product)) t = inr (a, t') →
  ∃ k sets,
    prop_get product "id" = Some (VStr k)
    ∧ Forall (λ s, s.1 ≠ "id") sets
    ∧ t' = <[k := apply_sets sets (default {["id" := VStr k]} (t !! k))]> t.
Proof.
  cbn [serve]. rewrite (proj2 (update_params_frame table product)).
  destruct (key_of _) as [k|] eqn:Hk; [|discriminate].
  apply key_of_Some in Hk as [Hk _].
  destruct (_ ≫= _) as [sets|] eqn:Hsets; [|discriminate].
  destruct (forallb index_value_ok sets); [|discriminate].
  intros [= _ <-]. exists k, sets. split; [done|]. split; [|done].
  by apply (update_sets_not_id table product).
Qed.

Lemma keyed_insert (t : table) (k : string) (it : item) :
  keyed t → it !! "id" = Some (VStr k) → keyed (<[k := it]> t).
Proof.
  intros Ht Hit k' it'. destruct (decide (k = k')) as [<-|Hne].
  - rewrite lookup_insert_eq. by intros [= <-].
  - rewrite lookup_insert_ne by done. apply Ht.
Qed.

Lemma keyed_delete (t : table) (k : string) : keyed t → keyed (delete k t).
Proof.
  intros Ht k' it'. destruct (decide (k = k')) as [<-|Hne].
  - by rewrite lookup_delete_eq.
  - rewrite lookup_delete_ne by done. apply Ht.
Qed.

(** The service keeps the table keyed on every request of a handler. *)
Lemma serve_keyed (r : request) (t t' : table) (a : reply) :
  match r with
  | ReqUpdate p => ∃ table product, p = update_params table product
  | _ => True
  end →
  keyed t → serve r t = inr (a, t') → keyed t'.
Proof.
  intros Hr Ht. destruct r as [p|p|p|p|p|p].
  - intros (k & [Hid _] & ->)%serve_put_inv. by apply keyed_insert.
  - by intros ->%serve_read.
  - by intros ->%serve_read.
  - by intros ->%serve_read.
  - destruct Hr as (table & product & ->).
    intros (k & sets & _ & Hsets & ->)%serve_update_inv.
    apply keyed_insert; [done|]. rewrite apply_sets_other by done.
    destruct (t !! k) as [it|] eqn:Hk; cbn [default].
    + by apply Ht.
    + apply lookup_singleton_eq.
  - cbn [serve]. destruct (key_of _); [|discriminate].
    intros [= _ <-]. by apply keyed_delete.
Qed.

Lemma send_keyed (r : request) (w : world) :
  match r with
  | ReqUpdate p => ∃ table product, p = update_params table product
  | _ => True
  end →
  keyed (items w) → keyed (items (send r w).2).
Proof.
  intros Hr Ht. destruct (send r w) as [[a|e] w1] eqn:Hs; cbn.
  - apply send_Ret in Hs as (t' & Hserve & -> & _).
    by apply (serve_keyed r (items w) t' a).
  - by apply send_Throw in Hs as ->.
Qed.

(** X10: the lambda keeps the table keyed: if every stored item carries as
    its [id] the key it is stored under, the same holds after any
    invocation, whatever the event and whether or not the store answers.
    In particular no update changes the [id] of a record, because the loop
    of [updateProduct] skips that attribute. *)
Theorem handler_keeps_keyed (event : AppSyncEvent) (w : world) :
  keyed (items w) → keyed (items (handler event w).2).
Proof.
  intros Ht. unfold handler.
  repeat match goal with
         | |- context [if String.eqb ?a ?b then _ else _] =>
             destruct (String.eqb a b)
         | |- context [if negb ?g then _ else _] => destruct (negb g)
         end;
    try exact Ht;
    rewrite ?getProductById_run, ?createProduct_run, ?listProducts_run,
      ?deleteProduct_run, ?updateProduct_run, ?productsByCategory_run;
    cbv zeta;
    match goal with
    | |- context [send ?r ?w0] =>
        assert (keyed (items (send r w0).2)) as Hk;
        [apply send_keyed; [by (trivial || eauto)|];
         by destruct (truthy _) || done
        |by destruct (send r w0) as [[a|e] w1]]
    end.
Qed.

Lemma handler_keeps_keyed_witness :
  keyed (items (handler
                  {| info_fieldName := "updateProduct";
                     arguments := {| productId := ""; category := "";
                                     product := p5_input |};
                     identity :=
                       Some {| username := "ann";
                               claims := {["cognito:groups" := ["Admin"]]} |} |}
                  p5_world).2).
Proof.
  apply handler_keeps_keyed. intros k it.
  destruct (decide (k = "1")) as [->|Hne].
  - intros [= <-]. reflexivity.
  - cbn [items p5_world]. rewrite lookup_singleton_ne by done. discriminate.
Defined.

(** X11: a write touches the record under its own key and no other:
    [updateProduct] leaves every record whose key is not the [id] of the
    input as it was, [deleteProduct] every record but the one deleted, and
    [createProduct] every record whose key is not the [id] put (the one
    given, or the one drawn). This holds whether or not the store answers. *)
Theorem writes_touch_one_key (w : world) (k : string) :
  (∀ product,
     prop_get product "id" ≠ Some (VStr k) →
     items (updateProduct product w).2 !! k = items w !! k)
  ∧ (∀ productId,
       productId ≠ k →
       items (deleteProduct productId w).2 !! k = items w !! k)
  ∧ (∀ product,
       (if truthy (prop_get product "id")
        then prop_get product "id" ≠ Some (VStr k)
        else v4 (entropy w) ≠ k) →
       items (createProduct product w).2 !! k = items w !! k).
Proof.
  split; [|split].
  - intros product Hk. rewrite updateProduct_run.
    destruct (send _ w) as [[a|e] w1] eqn:Hs; cbn.
    + apply send_Ret in Hs as (t' & Hserve & -> & _).
      apply serve_update_inv in Hserve as (k' & sets & Hid & _ & ->).
      cbn [items sent]. rewrite lookup_insert_ne; [done|].
      intros ->. by apply Hk.
    + by apply send_Throw in Hs as ->.
  - intros productId Hk. rewrite deleteProduct_run.
    destruct (send _ w) as [[a|e] w1] eqn:Hs; cbn.
    + apply send_Ret in Hs as (t' & Hserve & -> & _).
      cbn [serve delete_Key_id] in Hserve.
      destruct (key_of _) as [k'|] eqn:Hkey; [|discriminate].
      apply key_of_Some in Hkey as [[= <-] _]. injection Hserve as _ <-.
      cbn [items sent]. by rewrite lookup_delete_ne.
    + by apply send_Throw in Hs as ->.
  - intros product Hk. rewrite createProduct_run. cbv zeta.
    destruct (send _ _) as [[a|e] w1] eqn:Hs; cbn.
    + apply send_Ret in Hs
        as (t' & (k' & [Hid _] & ->)%serve_put_inv & -> & _).
      cbn [put_Item] in Hid. rewrite marshal_lookup in Hid.
      assert (k' ≠ k) as Hne.
      { intros ->. destruct (truthy (prop_get product "id")); [done|].
        rewrite prop_get_set, String.eqb_refl in Hid. by injection Hid. }
      cbn [items sent]. rewrite lookup_insert_ne by done.
      by destruct (truthy (prop_get product "id")).
    + apply send_Throw in Hs as ->.
      by destruct (truthy (prop_get product "id")).
Qed.

Lemma writes_touch_one_key_witness :
  items (updateProduct [("id", VStr "2"); ("price", VNum 5)] p5_world).2 !! "1"
  = items p5_world !! "1".
Proof.
  apply (proj1 (writes_touch_one_key p5_world "1")). discriminate.
Defined.



(** X13: an update whose input has no [id], or an [id] that is not a
    string, has no key to address: [updateProduct] returns [null], logs the
    rejection and leaves the table as it was, in every world. *)
Theorem updateProduct_without_id (product : obj) (w : world) :
  (∀ pid, prop_get product "id" ≠ Some (VStr pid)) →
  ∃ e w',
    updateProduct product w = (Ret Null, w')
    ∧ items w' = items w ∧ console w' = console w ++ [e].
Proof.
  intros Hid. rewrite updateProduct_run.
  destruct (send _ w) as [[a|e] w1] eqn:Hs.
  - apply send_Ret in Hs as (t' & Hserve & _).
    apply serve_update_inv in Hserve as (k & _ & Hk & _). by destruct (Hid k).
  - apply send_Throw in Hs as ->. by exists e; eexists.
Qed.

Lemma updateProduct_without_id_witness :
  ∃ e w',
    updateProduct [("price", VNum 20)] p5_world = (Ret Null, w')
    ∧ items w' = items p5_world ∧ console w' = console p5_world ++ [e].
Proof.
  apply updateProduct_without_id. intros pid. discriminate.
Defined.

(** ** The stack and the switch *)

(** X14: the resolvers of the stack and the cases of the switch agree. For
    every resolver that [cdk-products-stack.ts] attaches, an anonymous
    request is refused with [Error('unauthorized')] when the resolver is a
    [Mutation], and reaches a handler, which sends its request to the store,
    when it is a [Query]; a field name that the stack has no resolver for
    falls to [default] and returns [null]. *)
Theorem resolvers_match_switch :
  (∀ typeName fieldName args w,
     (typeName, fieldName) ∈ resolvers →
     (typeName = "Mutation"
      ∧ handler {| info_fieldName := fieldName; arguments := args;
                   identity := None |} w
        = (Throw (Error "unauthorized"), w))
     ∨ (typeName = "Query"
        ∧ ∃ r, requests (handler {| info_fieldName := fieldName;
                                    arguments := args;
                                    identity := None |} w).2
               = requests w ++ [r]))
  ∧ (∀ event w,
       (∀ typeName, (typeName, info_fieldName event) ∉ resolvers) →
       handler event w = (Ret Null, w)).
Proof.
  split.
  - intros typeName fieldName args w Hin.
    destruct (handlers_send_one_request w)
      as (Hget & _ & Hlist & _ & _ & Hquery).
    unfold resolvers in Hin.
    repeat (apply elem_of_cons in Hin as [[= -> ->]|Hin]);
      [right; split; [done|]; apply Hget
      |right; split; [done|]; apply Hlist
      |right; split; [done|]; apply Hquery
      |left; by split..
      |by apply elem_of_nil in Hin].
  - intros event w Hnone. unfold handler.
    repeat match goal with
           | |- context [if String.eqb ?a ?b then _ else _] =>
               destruct (String.eqb_spec a b) as [Heq|_]
           end;
      try reflexivity; exfalso.
    all: first
           [solve [apply (Hnone "Query"); rewrite Heq; unfold resolvers;
                   repeat first [by (apply elem_of_cons; left)
                                |apply elem_of_cons; right]]
           |solve [apply (Hnone "Mutation"); rewrite Heq; unfold resolvers;
                   repeat first [by (apply elem_of_cons; left)
                                |apply elem_of_cons; right]]].
Qed.

Lemma resolvers_match_switch_witness :
  ("Mutation" = "Mutation"
   ∧ handler {| info_fieldName := "updateProduct";
                arguments := {| productId := ""; category := "";
                                product := p5_input |};
                identity := None |} p5_world
     = (Throw (Error "unauthorized"), p5_world))
  ∨ ("Mutation" = "Query"
     ∧ ∃ r, requests (handler {| info_fieldName := "updateProduct";
                                 arguments := {| productId := "";
                                                 category := "";
                                                 product := p5_input |};
                                 identity := None |} p5_world).2
            = requests p5_world ++ [r]).
Proof.
  apply (proj1 resolvers_match_switch). unfold resolvers.
  repeat first [by (apply elem_of_cons; left) | apply elem_of_cons; right].
Defined.

(** ** Successive creations *)




(** ** What is logged *)

Lemma send_Throw_AWSError (r : request) (w w' : world) (e : exn) :
  send r w = (Throw e, w') → ∃ code, e = AWSError code.
Proof.
  unfold send. destruct (default false (head (outages w)));
    [intros [= <- _]; by eexists|].
  destruct (request_table r) as [n|]; [|intros [= <- _]; by eexists].
  destruct (String.eqb n (table_name w)); [|intros [= <- _]; by eexists].
  destruct (serve r (items w)) as [e'|[a t']] eqn:Hserve; [|discriminate].
  intros [= <- _].
  destruct r as [p|p|p|p|p|p]; cbn [serve] in Hserve;
    repeat match type of Hserve with
           | context [match ?x with _ => _ end] => destruct x
           | context [if ?x then _ else _] => destruct x
           end;
    first [discriminate | injection Hserve as <-; by eexists].
Qed.

Lemma handlers_log (w : world) :
  let logs (run : outcome jsval * world) :=
    (console run.2 = console w ∧ ∃ v, run.1 = Ret v)
    ∨ (∃ code v, console run.2 = console w ++ [AWSError code]
                 ∧ run.1 = Ret v ∧ absent v = true) in
  (∀ productId, logs (getProductById productId w))
  ∧ (∀ product, logs (createProduct product w))
  ∧ logs (listProducts w)
  ∧ (∀ productId, logs (deleteProduct productId w))
  ∧ (∀ product, logs (updateProduct product w))
  ∧ (∀ category, logs (productsByCategory category w)).
Proof.
  cbv zeta. repeat split; intros;
    rewrite ?getProductById_run, ?createProduct_run, ?listProducts_run,
      ?deleteProduct_run, ?updateProduct_run, ?productsByCategory_run;
    cbv zeta;
    match goal with
    | |- context [send ?r ?w0] =>
        destruct (send r w0) as [[a|e] w1] eqn:Hs;
        [apply send_Ret in Hs as (t' & _ & -> & _); left;
         split; [by destruct (truthy _) || done|by eexists]
        |pose proof (send_Throw_AWSError _ _ _ _ Hs) as [code ->];
         apply send_Throw in Hs as ->; right; exists code; eexists;
         split; [by destruct (truthy _) || done|by split]]
    end.
Qed.

(** X16: an invocation prints at most one line, and only for an error of
    the store: whenever something is logged it is an AWS error and the
    lambda returns "no data" ([null] or [undefined]); a refusal by the guard
    is thrown without being logged. *)
Theorem handler_logs_store_errors_only (event : AppSyncEvent) (w : world) :
  console (handler event w).2 = console w
  ∨ ∃ code v,
      console (handler event w).2 = console w ++ [AWSError code]
      ∧ (handler event w).1 = Ret v ∧ absent v = true.
Proof.
  pose proof (handlers_log w) as Hlog. cbv zeta in Hlog.
  destruct Hlog as (Hget & Hcreate & Hlist & Hdelete & Hupdate & Hquery).
  unfold handler.
  repeat match goal with
         | |- context [if String.eqb ?a ?b then _ else _] =>
             destruct (String.eqb a b)
         | |- context [if negb ?g then _ else _] => destruct (negb g)
         end;
    try (left; reflexivity).
  - destruct (Hget (productId (arguments event))) as [[? _]|?]; auto.
  - destruct (Hcreate (product (arguments event))) as [[? _]|?]; auto.
  - destruct Hlist as [[? _]|?]; auto.
  - destruct (Hdelete (productId (arguments event))) as [[? _]|?]; auto.
  - destruct (Hupdate (product (arguments event))) as [[? _]|?]; auto.
  - destruct (Hquery (category (arguments event))) as [[? _]|?]; auto.
Qed.

(** ** Keys and index keys that the store refuses *)

(** X17: the empty string is not a key. In every world, [deleteProduct] of
    the empty id, and [updateProduct] of an input whose [id] is the empty
    string, are refused by the store: the handler logs the error, returns
    [null] and leaves the table as it was. *)
Theorem empty_id_is_refused (w : world) :
  (∃ e w', deleteProduct "" w = (Ret Null, w')
           ∧ items w' = items w ∧ console w' = console w ++ [e])
  ∧ (∀ product,
       prop_get product "id" = Some (VStr "") →
       ∃ e w', updateProduct product w = (Ret Null, w')
               ∧ items w' = items w ∧ console w' = console w ++ [e]).
Proof.
  split.
  - rewrite deleteProduct_run.
    destruct (send_refused
                (ReqDelete {| delete_TableName := env_PRODUCT_TABLE w;
                              delete_Key_id := VStr "" |}) w
                (AWSError "ValidationException") eq_refl) as [e ->].
    by exists e; eexists.
  - intros product Hid. rewrite updateProduct_run.
    destruct (send_refused
                (ReqUpdate (update_params (env_PRODUCT_TABLE w) product)) w
                (AWSError "ValidationException")) as [e ->].
    { cbn [serve]. by rewrite (proj2 (update_params_frame _ product)), Hid. }
    by exists e; eexists.
Qed.

Lemma empty_id_is_refused_witness :
  ∃ e w', updateProduct [("id", VStr ""); ("price", VNum 20)] p5_world
          = (Ret Null, w')
          ∧ items w' = items p5_world
          ∧ console w' = console p5_world ++ [e].
Proof.
  apply (proj2 (empty_id_is_refused p5_world)). reflexivity.
Defined.

(** X18: the index key [category] takes nothing but a string that is not
    empty. An update whose input gives [category] any other value (null, a
    number, the empty string) is refused by the store in every world:
    [updateProduct] logs the error, returns [null], and no attribute of any
    record changes, the other attributes of the input included. *)
Theorem updateProduct_refuses_bad_category
    (product : obj) (v : value) (w : world) :
  Forall (λ a, ident_ok a = true) (keys product) →
  prop_get product "category" = Some v →
  (∀ x, v = VStr x → x = "") →
  ∃ e w', updateProduct product w = (Ret Null, w')
          ∧ items w' = items w ∧ console w' = console w ++ [e].
Proof.
  intros Hok Hcat Hbad. rewrite updateProduct_run.
  destruct (send_refused
              (ReqUpdate (update_params (env_PRODUCT_TABLE w) product)) w
              (AWSError "ValidationException")) as [e ->];
    [|by exists e; eexists].
  cbn [serve]. destruct (key_of _) as [k|]; [|done].
  rewrite update_params_expression.
  assert ("category" ∈ patch_attributes product) as Hin.
  { apply patch_attributes_elem. split; [|done].
    apply keys_prop_get. by exists v. }
  assert (Forall (λ a, ident_ok a = true) (patch_attributes product)) as Hok'.
  { rewrite Forall_forall in Hok |- *.
    intros a [? _]%patch_attributes_elem. by apply Hok. }
  destruct (patch_attributes product) as [|a l] eqn:Hpatch;
    [by apply elem_of_nil in Hin|].
  rewrite (parse_update_expression a l Hok'). cbn [mbind option_bind].
  rewrite (mapM_resolve _ _ (λ b, default VNull (prop_get product b)))
    by (intros b Hb; apply update_params_resolve; by rewrite Hpatch).
  destruct (forallb _ _) eqn:Hall; [|done]. exfalso.
  assert (index_value_ok ("category", v) = false) as Hno.
  { unfold index_value_ok. cbn. destruct v as [| | |x]; try done.
    by rewrite (Hbad x eq_refl). }
  rewrite forallb_forall in Hall.
  rewrite (Hall ("category", v)) in Hno; [discriminate Hno|].
  replace v with (default VNull (prop_get product "category"))
    by (by rewrite Hcat).
  apply (in_map (λ b, (b, default VNull (prop_get product b))) (a :: l)
                "category").
  by apply list_elem_of_In.
Qed.

Lemma updateProduct_refuses_bad_category_witness :
  ∃ e w', updateProduct [("id", VStr "1"); ("category", VNull)] p5_world
          = (Ret Null, w')
          ∧ items w' = items p5_world
          ∧ console w' = console p5_world ++ [e].
Proof.
  apply (updateProduct_refuses_bad_category _ VNull p5_world).
  - repeat constructor.
  - reflexivity.
  - discriminate.
Defined.
